(** * UML model comparator ([compare.py]): reconciliation and scoring

    A shallow embedding of the four functions of [compare.py] that carry
    logic, and the properties of the comparison they compute.

    Modelling conventions.
    - A Python [dict] is insertion ordered and has unique keys: it is an
      association list ([Dict.t]) with [Dict.get] / [Dict.set]; the
      uniqueness of the keys of an input dict is the hypothesis [Dict.wf].
    - A Python [set] of hashable values is a [gset]; a loop over a set
      visits [elements] of it.
    - A [defaultdict(list)] is a [gmap] to lists whose subscript read
      ([dd_getitem]) stores the empty list under a missing key, as Python
      does; the scorer therefore threads the comparison it reads.
    - Python floats are modelled by exact rationals [Q]: [a / b] on two
      [int]s is the quotient, [0.25] is [25 # 100]. Rounding is modelled
      apart, by a second scorer that rounds every operation with a function
      [rnd] ([evaluate_models_fl]); [b64] is the rounding of binary64.
    - A raised exception is the [Err] outcome of the [result] monad. *)

From Stdlib Require Import QArith Lqa.
From stdpp Require Import gmap strings list fin_maps fin_sets.

#[local] Set Warnings "-clear-no-such-hyp".

Local Open Scope string_scope.
Local Open Scope list_scope.
Local Open Scope nat_scope.

(** ** Exceptions and the error monad *)

Inductive exn : Type :=
  | KeyError (key : string)   (* subscript of a dict by a missing key *)
  | TypeError                 (* unhashable set element, bad subscript *)
  | ValueError.               (* [max] of an empty iterable *)

(** The name of the Python class of an exception. *)
Definition exn_class (e : exn) : string :=
  match e with
  | KeyError _ => "KeyError"
  | TypeError => "TypeError"
  | ValueError => "ValueError"
  end.

Inductive result (A : Type) : Type :=
  | Ok (a : A)
  | Err (e : exn).
Arguments Ok {A} a.
Arguments Err {A} e.

#[global] Instance result_ret : MRet result := λ A a, Ok a.

#[global] Instance result_bind : MBind result := λ A B f m,
  match m with
  | Ok a => f a
  | Err e => Err e
  end.

(** [signals cls r]: the outcome [r] is an exception of the class named [cls]. *)
Definition signals {A} (cls : string) (r : result A) : Prop :=
  ∃ e, r = Err e ∧ exn_class e = cls.

(** ** Python dicts, in insertion order *)

Module Dict.
Section dict.
Context {K V : Type} `{EqDecision K}.

Definition t : Type := list (K * V).

(** [d.get(k)] *)
Fixpoint get (d : list (K * V)) (k : K) : option V :=
  match d with
  | [] => None
  | (k', v) :: d' => if decide (k = k') then Some v else get d' k
  end.

(** [d[k] = v]: a present key keeps its position, a new one goes last. *)
Fixpoint set (d : list (K * V)) (k : K) (v : V) : list (K * V) :=
  match d with
  | [] => [(k, v)]
  | (k', v') :: d' =>
      if decide (k = k') then (k, v) :: d' else (k', v') :: set d' k v
  end.

(** iteration over a dict visits its keys *)
Definition keys (d : list (K * V)) : list K := d.*1.

Definition wf (d : list (K * V)) : Prop := NoDup (keys d).
End dict.
Arguments t : clear implicits.
End Dict.

(** ** Data model *)

(** A relationship triple [(from, to, label)]. *)
Definition rel : Type := string * string * string.

(** [{"classes": set, "relationships": set}] *)
Record model_data : Type := ModelData {
  classes : gset string;
  relationships : gset rel;
}.

(** The registry [models]: model name to fact set. *)
Abbreviation registry := (list (string * model_data)).

(** [{"classes": class_presence, "relationships": relationship_presence}] *)
Record comparison : Type := Comparison {
  cmp_classes : gmap string (list string);
  cmp_relationships : gmap rel (list string);
}.

Record metrics_record : Type := Metrics {
  recall_classes : Q;
  precision_classes : Q;
  recall_relationships : Q;
  precision_relationships : Q;
  overlap_score : Q;
  total_score : Q;
}.

(** ** [load_model_from_json] *)

(** The parsed document [data]: an object whose values are lists of strings
    or lists of string-valued objects, as in the input format. *)
Inductive jval : Type :=
  | JStrings (l : list string)
  | JObjects (l : list (gmap string string)).

(** [rel[k]] on a dict *)
Definition getitem (o : gmap string string) (k : string) : result string :=
  match o !! k with
  | Some v => Ok v
  | None => Err (KeyError k)
  end.

(** [set(data.get("classes", []))]: a dict is not hashable. *)
Definition load_classes (data : gmap string jval) : result (gset string) :=
  match default (JStrings []) (data !! "classes") with
  | JStrings l => Ok (list_to_set l)
  | JObjects [] => Ok ∅
  | JObjects (_ :: _) => Err TypeError
  end.

(** The body of the loop over [data.get("relationships", [])]. *)
Fixpoint load_relationships_loop (l : list (gmap string string))
    (relationships : gset rel) : result (gset rel) :=
  match l with
  | [] => Ok relationships
  | o :: l' =>
      f ← getitem o "from";
      t ← getitem o "to";
      lb ← getitem o "label";
      load_relationships_loop l' (relationships ∪ {[ (f, t, lb) ]})
  end.

(** A string cannot be subscripted by ["from"]. *)
Definition load_relationships (data : gmap string jval) : result (gset rel) :=
  match default (JObjects []) (data !! "relationships") with
  | JObjects l => load_relationships_loop l ∅
  | JStrings [] => Ok ∅
  | JStrings (_ :: _) => Err TypeError
  end.

Definition load_model_from_json (data : gmap string jval) : result model_data :=
  cs ← load_classes data;
  rs ← load_relationships data;
  Ok {| classes := cs; relationships := rs |}.

(** ** [compare_models] *)

(** The first loop: both unions are accumulated together. *)
Definition unions (models : registry) : gset string * gset rel :=
  foldl (λ acc entry,
           (acc.1 ∪ classes entry.2, acc.2 ∪ relationships entry.2))
        (∅, ∅) models.

Section presence.
Context {K : Type} `{Countable K}.
Variable facts : model_data → gset K.

(** [d[k].append(x)] on a [defaultdict(list)] *)
Definition dd_append (d : gmap K (list string)) (k : K) (x : string)
    : gmap K (list string) :=
  <[k := default [] (d !! k) ++ [x]]> d.

(** The inner loop, for one fact [k]. *)
Definition presence_row (models : registry) (d : gmap K (list string))
    (k : K) : gmap K (list string) :=
  foldl (λ d entry,
           if decide (k ∈ facts entry.2) then dd_append d k entry.1 else d)
        d models.

(** The two nested loops that fill one presence index. *)
Definition presence (all : gset K) (models : registry)
    : gmap K (list string) :=
  foldl (presence_row models) ∅ (elements all).
End presence.

Definition compare_models (models : registry)
    : comparison * gset string * gset rel :=
  let '(all_classes, all_relationships) := unions models in
  let class_presence := presence classes all_classes models in
  let relationship_presence :=
    presence relationships all_relationships models in
  ({| cmp_classes := class_presence;
      cmp_relationships := relationship_presence |},
   all_classes, all_relationships).

(** ** [evaluate_models] *)

(** True division of two [int]s; every call is guarded by a test that the
    divisor is not zero. *)
Definition py_div (a b : nat) : Q := Z.of_nat a # Pos.of_nat b.

Section overlap.
Context {K : Type} `{Countable K}.

(** [d[k]] on a [defaultdict(list)]: a missing key is stored with []. *)
Definition dd_getitem (d : gmap K (list string)) (k : K)
    : list string * gmap K (list string) :=
  match d !! k with
  | Some v => (v, d)
  | None => ([], <[k := []]> d)
  end.

(** One element of the comprehension: read [d[k]], keep a 1 when the
    list is longer than 1. *)
Definition overlap_step (st : list nat * gmap K (list string)) (k : K)
    : list nat * gmap K (list string) :=
  let '(v, d') := dd_getitem st.2 k in
  (if decide (1 < length v) then st.1 ++ [1] else st.1, d').

(** [[1 for k in fs if len(d[k]) > 1]], and the dict after the reads. *)
Definition overlap_ones (fs : gset K) (d : gmap K (list string))
    : list nat * gmap K (list string) :=
  foldl overlap_step ([], d) (elements fs).
End overlap.

(** One iteration of the loop over [models.items()]. *)
Definition evaluate_step (all_classes : gset string) (all_relationships : gset rel)
    (st : Dict.t string Q * Dict.t string metrics_record
          * comparison)
    (entry : string * model_data)
    : Dict.t string Q * Dict.t string metrics_record
      * comparison :=
  let '(scores, metrics, cmp) := st in
  let '(model_name, model_data) := entry in
  let recall_classes :=
    if decide (all_classes ≠ ∅)
    then py_div (size (classes model_data)) (size all_classes) else 0%Q in
  let '(ones_c, cp) := overlap_ones (classes model_data) (cmp_classes cmp) in
  let class_overlap_count := sum_list ones_c in
  let precision_classes :=
    if decide (classes model_data ≠ ∅)
    then py_div class_overlap_count (size (classes model_data)) else 0%Q in
  let recall_rels :=
    if decide (all_relationships ≠ ∅)
    then py_div (size (relationships model_data)) (size all_relationships)
    else 0%Q in
  let '(ones_r, rp) :=
    overlap_ones (relationships model_data) (cmp_relationships cmp) in
  let rel_overlap_count := sum_list ones_r in
  let precision_rels :=
    if decide (relationships model_data ≠ ∅)
    then py_div rel_overlap_count (size (relationships model_data))
    else 0%Q in
  let overlap_score :=
    if decide (classes model_data ≠ ∅ ∨ relationships model_data ≠ ∅)
    then py_div (class_overlap_count + rel_overlap_count)
                (size (classes model_data) + size (relationships model_data))
    else 0%Q in
  let total_score :=
    ((25 # 100) * recall_classes +
     (25 # 100) * precision_classes +
     (25 # 100) * recall_rels +
     (15 # 100) * precision_rels +
     (10 # 100) * overlap_score)%Q in
  (Dict.set scores model_name total_score,
   Dict.set metrics model_name
     {| recall_classes := recall_classes;
        precision_classes := precision_classes;
        recall_relationships := recall_rels;
        precision_relationships := precision_rels;
        overlap_score := overlap_score;
        total_score := total_score |},
   {| cmp_classes := cp; cmp_relationships := rp |}).

(** Returns [scores], [metrics] and the comparison as the reads left it. *)
Definition evaluate_models (models : registry) (all_classes : gset string)
    (all_relationships : gset rel) (cmp : comparison)
    : Dict.t string Q * Dict.t string metrics_record
      * comparison :=
  foldl (evaluate_step all_classes all_relationships) ([], [], cmp) models.

(** ** Best model: [max(scores, key=scores.get)] *)

(** [a > b] on two results of [scores.get]; [None] cannot be ordered. *)
Definition py_gt (a b : option Q) : result bool :=
  match a, b with
  | Some x, Some y => Ok (negb (Qle_bool x y))
  | _, _ => Err TypeError
  end.

(** The loop of [max]: the running maximum is replaced only by a strictly
    greater item. *)
Fixpoint max_loop {A} (key : A → option Q) (maxitem : A) (maxval : option Q)
    (l : list A) : result A :=
  match l with
  | [] => Ok maxitem
  | item :: l' =>
      let val := key item in
      gt ← py_gt val maxval;
      if (gt : bool) then max_loop key item val l'
      else max_loop key maxitem maxval l'
  end.

Definition py_max {A} (key : A → option Q) (l : list A) : result A :=
  match l with
  | [] => Err ValueError
  | item :: l' => max_loop key item (key item) l'
  end.

Definition best_model (scores : Dict.t string Q) : result string :=
  py_max (Dict.get scores) (Dict.keys scores).

(** The run of [__main__] on a loaded registry, up to the best model. *)
Definition run (models : registry)
    : Dict.t string Q * Dict.t string metrics_record
      * comparison :=
  let '(cmp, all_classes, all_relationships) := compare_models models in
  evaluate_models models all_classes all_relationships cmp.

(** ** The scorer in the words of its description

    [metrics_of] states the six metrics of one model as set cardinalities
    over a fixed presence index; [evaluate_models] is shown to compute
    them. *)

(** [|d[k]|], the length of a presence list (0 for an absent key). *)
Definition plen {K} `{Countable K} (d : gmap K (list string)) (k : K) : nat :=
  length (default [] (d !! k)).

(** The facts of [fs] listed by more than one model. *)
Definition corroborated {K} `{Countable K} (d : gmap K (list string))
    (fs : gset K) : gset K :=
  filter (λ k, 1 < plen d k) fs.

(** [a / b], and 0 for an empty denominator. *)
Definition ratio (a b : nat) : Q :=
  if decide (b = 0) then 0%Q else py_div a b.

Definition weighted (rc pc rr pr ov : Q) : Q :=
  ((25 # 100) * rc + (25 # 100) * pc + (25 # 100) * rr +
   (15 # 100) * pr + (10 # 100) * ov)%Q.

Definition metrics_of (all_classes : gset string) (all_relationships : gset rel)
    (cmp : comparison) (md : model_data) : metrics_record :=
  let cc := size (corroborated (cmp_classes cmp) (classes md)) in
  let cr := size (corroborated (cmp_relationships cmp) (relationships md)) in
  let rc := ratio (size (classes md)) (size all_classes) in
  let pc := ratio cc (size (classes md)) in
  let rr := ratio (size (relationships md)) (size all_relationships) in
  let pr := ratio cr (size (relationships md)) in
  let ov := ratio (cc + cr) (size (classes md) + size (relationships md)) in
  {| recall_classes := rc;
     precision_classes := pc;
     recall_relationships := rr;
     precision_relationships := pr;
     overlap_score := ov;
     total_score := weighted rc pc rr pr ov |}.

(** The models of a registry that contain the fact [k], in registry order. *)
Definition holders {K} `{Countable K} (facts : model_data → gset K) (k : K)
    (models : registry) : list string :=
  (filter (λ entry, k ∈ facts entry.2) models).*1.

(** Two presence indexes that read the same under every key. *)
Definition dd_equiv {K} `{Countable K} (d d' : gmap K (list string)) : Prop :=
  ∀ k, default [] (d !! k) = default [] (d' !! k).

(** Two comparisons whose presence lists agree. *)
Definition cmp_equiv (c c' : comparison) : Prop :=
  dd_equiv (cmp_classes c) (cmp_classes c')
  ∧ dd_equiv (cmp_relationships c) (cmp_relationships c').

(** Every fact of the model is a key of the comparison. *)
Definition covered (c : comparison) (md : model_data) : Prop :=
  classes md ⊆ dom (cmp_classes c)
  ∧ relationships md ⊆ dom (cmp_relationships c).

(** The three results of the reconciler. *)
Definition comparison_of (models : registry) : comparison :=
  (compare_models models).1.1.
Definition all_classes_of (models : registry) : gset string :=
  (compare_models models).1.2.
Definition all_relationships_of (models : registry) : gset rel :=
  (compare_models models).2.

(** The two dicts returned by the scorer in a run. *)
Definition scores_of (models : registry) : Dict.t string Q :=
  (run models).1.1.
Definition metrics_dict_of (models : registry)
    : Dict.t string metrics_record :=
  (run models).1.2.

(** The metrics of a model against the reconciliation of its registry. *)
Definition run_metrics (models : registry) (md : model_data) : metrics_record :=
  metrics_of (all_classes_of models) (all_relationships_of models)
    (comparison_of models) md.

(** ** Example inputs *)

(** Two models that share the class ["Y"]. *)
Definition model_A : model_data :=
  {| classes := {["X"; "Y"]}; relationships := ∅ |}.
Definition model_B : model_data :=
  {| classes := {["Y"; "Z"]}; relationships := ∅ |}.
Definition registry_AB : registry := [("A", model_A); ("B", model_B)].

(** A third model, whose only class is a class of [model_A]. *)
Definition model_C : model_data :=
  {| classes := {["Y"]}; relationships := ∅ |}.

(** A model without facts, alone in its registry. *)
Definition model_empty : model_data :=
  {| classes := ∅; relationships := ∅ |}.
Definition registry_E : registry := [("E", model_empty)].

(** A relationship entry that lacks one of its three fields. *)
Definition malformed (o : gmap string string) : Prop :=
  o !! "from" = None ∨ o !! "to" = None ∨ o !! "label" = None.

(** A document whose only relationship has no ["label"]. *)
Definition doc_missing_label : gmap string jval :=
  {[ "relationships" :=
       JObjects [ <["to" := "B"]> {[ "from" := "A" ]} ] ]}.

(** ** [save_results_to_csv]

    The file written is the list of the rows passed to [writer.writerow],
    each a list of fields. The rows of a presence index follow the order of
    its keys, which is the order in which a Python set was visited and is
    not fixed by the program: here it is the order of [map_to_list], and no
    property depends on it. [f"{x:.3f}"] is the parameter [fmt3]. *)

(** [sep.join(l)] *)
Fixpoint join (sep : string) (l : list string) : string :=
  match l with
  | [] => ""
  | x :: l' =>
      match l' with
      | [] => x
      | _ :: _ => String.append x (String.append sep (join sep l'))
      end
  end.

Section report.
Variable fmt3 : Q → string.

Definition class_rows (cp : gmap string (list string)) : list (list string) :=
  (λ kv, [kv.1; join ", " kv.2]) <$> map_to_list cp.

Definition relationship_rows (rp : gmap rel (list string))
    : list (list string) :=
  (λ kv, [kv.1.1.1; kv.1.1.2; kv.1.2; join ", " kv.2]) <$> map_to_list rp.

Definition metric_rows (metrics : Dict.t string metrics_record)
    : list (list string) :=
  (λ e, [e.1;
         fmt3 (recall_classes e.2);
         fmt3 (precision_classes e.2);
         fmt3 (recall_relationships e.2);
         fmt3 (precision_relationships e.2);
         fmt3 (overlap_score e.2);
         fmt3 (total_score e.2)]) <$> metrics.

(** The rows written before the best model is looked up. *)
Definition report_rows (cmp : comparison)
    (metrics : Dict.t string metrics_record) : list (list string) :=
  [["Class Comparison"]; ["Class"; "Present In Models"]]
  ++ class_rows (cmp_classes cmp)
  ++ [[]]
  ++ [["Relationship Comparison"];
      ["From"; "To"; "Label"; "Present In Models"]]
  ++ relationship_rows (cmp_relationships cmp)
  ++ [[]]
  ++ [["Model Metrics"];
      ["Model"; "Recall Classes"; "Precision Classes";
       "Recall Relationships"; "Precision Relationships";
       "Overlap Score"; "Total Score"]]
  ++ metric_rows metrics
  ++ [[]].

(** Returns the rows written and the outcome: an exception of [max] leaves
    the rows written before it. *)
Definition save_results_to_csv (cmp : comparison) (scores : Dict.t string Q)
    (metrics : Dict.t string metrics_record)
    : list (list string) * result unit :=
  match best_model scores with
  | Ok best => (report_rows cmp metrics ++ [["Best Model"; best]], Ok ())
  | Err e => (report_rows cmp metrics, Err e)
  end.

(** ** [__main__]

    The file system is a map from the paths that exist to the parsed
    document each holds. Printing is not modelled. *)

Inductive outcome (A : Type) : Type :=
  | Finished (a : A)
  | Exited (path : string)     (* [exit()] after "File not found: path" *)
  | Raised (e : exn).
Arguments Finished {A} a.
Arguments Exited {A} path.
Arguments Raised {A} e.

Definition file_paths : Dict.t string string :=
  [("Claude", "claude.json"); ("Gemini", "gemini.json");
   ("Groq", "groq.json")].

(** The loop that fills [models]. *)
Fixpoint load_all (fs : gmap string (gmap string jval))
    (paths : list (string * string)) (models : registry)
    : outcome registry :=
  match paths with
  | [] => Finished models
  | (model_name, path) :: paths' =>
      match fs !! path with
      | None => Exited path
      | Some data =>
          match load_model_from_json data with
          | Ok md => load_all fs paths' (Dict.set models model_name md)
          | Err e => Raised e
          end
      end
  end.

(** The run: the best model and the rows of the CSV file. *)
Definition main (fs : gmap string (gmap string jval))
    : outcome (string * list (list string)) :=
  match load_all fs file_paths [] with
  | Finished models =>
      let '(cmp, all_classes, all_relationships) := compare_models models in
      let '(scores, metrics, cmp') :=
        evaluate_models models all_classes all_relationships cmp in
      match best_model scores with
      | Ok best =>
          match save_results_to_csv cmp' scores metrics with
          | (rows, Ok _) => Finished (best, rows)
          | (_, Err e) => Raised e
          end
      | Err e => Raised e
      end
  | Exited path => Exited path
  | Raised e => Raised e
  end.
End report.
Arguments Finished {A} a.
Arguments Exited {A} path.
Arguments Raised {A} e.

(** ** The document of a loaded model *)

(** The class names listed by a document. *)
Definition doc_classes (data : gmap string jval) : list string :=
  match data !! "classes" with
  | Some (JStrings l) => l
  | _ => []
  end.

(** The relationship entries listed by a document. *)
Definition doc_relationships (data : gmap string jval)
    : list (gmap string string) :=
  match data !! "relationships" with
  | Some (JObjects l) => l
  | _ => []
  end.

(** The first field, in the order read, that an entry lacks. *)
Definition first_missing (o : gmap string string) : option string :=
  match o !! "from", o !! "to", o !! "label" with
  | None, _, _ => Some "from"
  | Some _, None, _ => Some "to"
  | Some _, Some _, None => Some "label"
  | Some _, Some _, Some _ => None
  end.

(** The values of a document that the loader cannot read. *)
Definition bad_classes (data : gmap string jval) : Prop :=
  ∃ o l, data !! "classes" = Some (JObjects (o :: l)).
Definition bad_relationships (data : gmap string jval) : Prop :=
  (∃ s l, data !! "relationships" = Some (JStrings (s :: l)))
  ∨ ∃ o, o ∈ doc_relationships data ∧ malformed o.

(** A complete entry, listed twice, and a class listed twice. *)
Definition entry_AB : gmap string string :=
  <["label" := "uses"]> (<["to" := "B"]> {[ "from" := "A" ]}).
Definition doc_dup : gmap string jval :=
  <["relationships" := JObjects [entry_AB; entry_AB]]>
    {[ "classes" := JStrings ["A"; "B"; "A"] ]}.
Definition doc_once : gmap string jval :=
  <["relationships" := JObjects [entry_AB]]>
    {[ "classes" := JStrings ["B"; "A"] ]}.

(** A document whose second entry has neither ["to"] nor ["label"]. *)
Definition entry_from_only : gmap string string := {[ "from" := "A" ]}.
Definition doc_second_bad : gmap string jval :=
  {[ "relationships" := JObjects [entry_AB; entry_from_only] ]}.

(** [registry_AB] in the other order, and a registry that holds [model_A]
    under two names. *)
Definition registry_BA : registry := [("B", model_B); ("A", model_A)].
Definition registry_AA : registry := [("A", model_A); ("A2", model_A)].

(** A file system with the three files of [file_paths], and one without
    ["gemini.json"]. *)
Definition fs_three : gmap string (gmap string jval) :=
  <["groq.json" := ∅]>
    (<["gemini.json" := doc_once]> {[ "claude.json" := doc_dup ]}).
Definition fs_no_gemini : gmap string (gmap string jval) :=
  <["groq.json" := ∅]> {[ "claude.json" := doc_dup ]}.

(** A path is readable when the file exists and its document loads. *)
Definition loads (fs : gmap string (gmap string jval))
    (entry : string * string) : Prop :=
  ∃ data md, fs !! entry.2 = Some data ∧ load_model_from_json data = Ok md.

(** A file system whose first file holds [doc_missing_label]. *)
Definition fs_bad : gmap string (gmap string jval) :=
  {[ "claude.json" := doc_missing_label ]}.

(** ** The scorer in binary64

    [compare.py] computes the metrics in binary64. Every float operation
    returns its exact result rounded, so the scorer of the program is the
    scorer below at the function [rnd] that rounds a rational to a double:
    [a / b] on two [int]s is [rnd] of the quotient, a literal is [rnd] of
    its decimal, [x * y] and [x + y] are [rnd] of the product and the sum.
    A double that is not NaN is a rational and [>] on doubles is [>] on
    these rationals, so [best_model] applies as it is. The scorer above is
    the instance at the identity. *)

Section rounded.
Variable rnd : Q → Q.

Definition fl_div (a b : nat) : Q := rnd (py_div a b).
Definition fl_lit (q : Q) : Q := rnd q.
Definition fl_mul (x y : Q) : Q := rnd (x * y).
Definition fl_add (x y : Q) : Q := rnd (x + y).

Definition evaluate_step_fl (all_classes : gset string)
    (all_relationships : gset rel)
    (st : Dict.t string Q * Dict.t string metrics_record * comparison)
    (entry : string * model_data)
    : Dict.t string Q * Dict.t string metrics_record * comparison :=
  let '(scores, metrics, cmp) := st in
  let '(model_name, model_data) := entry in
  let recall_classes :=
    if decide (all_classes ≠ ∅)
    then fl_div (size (classes model_data)) (size all_classes) else 0%Q in
  let '(ones_c, cp) := overlap_ones (classes model_data) (cmp_classes cmp) in
  let class_overlap_count := sum_list ones_c in
  let precision_classes :=
    if decide (classes model_data ≠ ∅)
    then fl_div class_overlap_count (size (classes model_data)) else 0%Q in
  let recall_rels :=
    if decide (all_relationships ≠ ∅)
    then fl_div (size (relationships model_data)) (size all_relationships)
    else 0%Q in
  let '(ones_r, rp) :=
    overlap_ones (relationships model_data) (cmp_relationships cmp) in
  let rel_overlap_count := sum_list ones_r in
  let precision_rels :=
    if decide (relationships model_data ≠ ∅)
    then fl_div rel_overlap_count (size (relationships model_data))
    else 0%Q in
  let overlap_score :=
    if decide (classes model_data ≠ ∅ ∨ relationships model_data ≠ ∅)
    then fl_div (class_overlap_count + rel_overlap_count)
                (size (classes model_data) + size (relationships model_data))
    else 0%Q in
  let total_score :=
    fl_add
      (fl_add
         (fl_add
            (fl_add (fl_mul (fl_lit (25 # 100)) recall_classes)
                    (fl_mul (fl_lit (25 # 100)) precision_classes))
            (fl_mul (fl_lit (25 # 100)) recall_rels))
         (fl_mul (fl_lit (15 # 100)) precision_rels))
      (fl_mul (fl_lit (10 # 100)) overlap_score) in
  (Dict.set scores model_name total_score,
   Dict.set metrics model_name
     {| recall_classes := recall_classes;
        precision_classes := precision_classes;
        recall_relationships := recall_rels;
        precision_relationships := precision_rels;
        overlap_score := overlap_score;
        total_score := total_score |},
   {| cmp_classes := cp; cmp_relationships := rp |}).

Definition evaluate_models_fl (models : registry) (all_classes : gset string)
    (all_relationships : gset rel) (cmp : comparison)
    : Dict.t string Q * Dict.t string metrics_record * comparison :=
  foldl (evaluate_step_fl all_classes all_relationships) ([], [], cmp) models.

Definition run_fl (models : registry)
    : Dict.t string Q * Dict.t string metrics_record * comparison :=
  let '(cmp, all_classes, all_relationships) := compare_models models in
  evaluate_models_fl models all_classes all_relationships cmp.

Definition scores_fl_of (models : registry) : Dict.t string Q :=
  (run_fl models).1.1.
Definition metrics_fl_of (models : registry)
    : Dict.t string metrics_record :=
  (run_fl models).1.2.
End rounded.

(** Rounding to nearest, ties to even, with a significand of 53 bits: the
    value of the nearest double, for a rational in the range of the normal
    doubles (the metrics are 0 or quotients of two set sizes, and sums and
    products of such). *)
Definition b64_pos (n d : positive) : Q :=
  let k := (Z.log2 (Z.pos n) - Z.log2 (Z.pos d))%Z in
  (* 2^(k-1) < n/d < 2^(k+1) *)
  let scaled (e : Z) : Z * Z :=
    (* numerator and denominator of (n/d) * 2^e *)
    if (0 <=? e)%Z then (Z.pos n * 2 ^ e, Z.pos d)%Z
    else (Z.pos n, Z.pos d * 2 ^ (- e))%Z in
  let e0 := (52 - k)%Z in
  let e :=
    let '(N, D) := scaled e0 in
    if (N / D <? 2 ^ 52)%Z then (e0 + 1)%Z else e0 in
  let '(N, D) := scaled e in
  let m := (N / D)%Z in
  let r := (N mod D)%Z in
  let m' :=
    if (2 * r <? D)%Z then m
    else if (D <? 2 * r)%Z then (m + 1)%Z
    else if Z.even m then m else (m + 1)%Z in
  if (0 <=? e)%Z then Qred (m' # Z.to_pos (2 ^ e))
  else Qred (inject_Z (m' * 2 ^ (- e))).

Definition b64 (q : Q) : Q :=
  match Qnum q with
  | Z0 => 0
  | Zpos n => b64_pos n (Qden q)
  | Zneg n => - b64_pos n (Qden q)
  end.

(** Two models without classes: three relationships, and one of them. *)
Definition model_big : model_data :=
  {| classes := ∅;
     relationships := {[ ("a", "b", "r"); ("b", "c", "r"); ("c", "d", "r") ]} |}.
Definition model_small : model_data :=
  {| classes := ∅; relationships := {[ ("a", "b", "r") ]} |}.
Definition registry_BS : registry :=
  [("Big", model_big); ("Small", model_small)].

(** The keys of a dict filled by one assignment per entry. *)
Definition keys_fill (ks : list string) (models : registry) : list string :=
  foldl (λ ks e, if decide (e.1 ∈ ks) then ks else ks ++ [e.1]) ks models.

(** A document in the input format: the classes are not a list of
    objects and the relationships are not a list of strings. *)
Definition in_format (data : gmap string jval) : Prop :=
  ¬ bad_classes data
  ∧ ¬ ∃ s l, data !! "relationships" = Some (JStrings (s :: l)).

(** * Properties *)

(** ** Dicts *)

Section dict_facts.
Context {K V : Type} `{EqDecision K}.
Implicit Types (d : list (K * V)) (k : K) (v : V).

Lemma dict_get_set_eq d k v : Dict.get (Dict.set d k v) k = Some v.
Proof.
  induction d as [|[k' v'] d IH]; simpl.
  - by rewrite decide_True.
  - destruct (decide (k = k')) as [->|Hne]; simpl.
    + by rewrite decide_True.
    + by rewrite decide_False.
Qed.

Lemma dict_get_set_ne d k k' v :
  k ≠ k' → Dict.get (Dict.set d k v) k' = Dict.get d k'.
Proof.
  intros Hne. induction d as [|[k0 v0] d IH]; simpl.
  - by rewrite decide_False.
  - destruct (decide (k = k0)) as [->|Hne0]; simpl.
    + by rewrite !decide_False.
    + by rewrite IH.
Qed.

Lemma dict_get_is_Some d k : k ∈ Dict.keys d ↔ is_Some (Dict.get d k).
Proof.
  unfold Dict.keys. induction d as [|[k0 v0] d IH]; simpl.
  - split; [by intros ?%elem_of_nil | by intros [? ?]].
  - rewrite elem_of_cons. destruct (decide (k = k0)) as [->|Hne].
    + split; eauto.
    + rewrite <- IH. split; [by intros [?|?] | by right].
Qed.

Lemma dict_get_elem_of d k v :
  Dict.wf d → (k, v) ∈ d → Dict.get d k = Some v.
Proof.
  unfold Dict.wf, Dict.keys. induction d as [|[k0 v0] d IH]; simpl.
  - by intros _ ?%elem_of_nil.
  - intros [Hnin Hnd]%NoDup_cons [Heq|Hin]%elem_of_cons.
    + inversion Heq; subst. by rewrite decide_True.
    + rewrite decide_False; [by apply IH|].
      intros ->. apply Hnin. by apply (list_elem_of_fmap_2 fst) in Hin.
Qed.
End dict_facts.

(** ** The reconciler *)

Lemma unions_acc (models : registry) (a : gset string) (b : gset rel) :
  foldl (λ acc entry,
           (acc.1 ∪ classes entry.2, acc.2 ∪ relationships entry.2))
        (a, b) models
  = (a ∪ ⋃ (classes <$> models.*2), b ∪ ⋃ (relationships <$> models.*2)).
Proof.
  revert a b. induction models as [|[n md] models IH]; intros a b; simpl.
  - f_equal; set_solver.
  - rewrite IH. f_equal; set_solver.
Qed.

Lemma unions_spec (models : registry) :
  unions models
  = (⋃ (classes <$> models.*2), ⋃ (relationships <$> models.*2)).
Proof. unfold unions. rewrite unions_acc. f_equal; set_solver. Qed.

Section presence_facts.
Context {K : Type} `{Countable K}.
Variable facts : model_data → gset K.
Implicit Types (d : gmap K (list string)) (k : K) (models : registry).

Lemma elem_of_all_facts k models :
  k ∈ ⋃ (facts <$> models.*2) ↔ ∃ entry, entry ∈ models ∧ k ∈ facts entry.2.
Proof.
  rewrite elem_of_union_list. split.
  - intros (X & HX & Hk). apply list_elem_of_fmap in HX as (md & -> & Hmd).
    apply list_elem_of_fmap in Hmd as (entry & -> & Hentry). eauto.
  - intros (entry & Hentry & Hk). exists (facts entry.2). split; [|done].
    apply list_elem_of_fmap. exists entry.2. split; [done|].
    by apply list_elem_of_fmap_2.
Qed.

Lemma elem_of_holders k name models :
  name ∈ holders facts k models
  ↔ ∃ md, (name, md) ∈ models ∧ k ∈ facts md.
Proof.
  unfold holders. rewrite list_elem_of_fmap. split.
  - intros ([n md] & -> & [Hk Hin]%list_elem_of_filter). eauto.
  - intros (md & Hin & Hk). exists (name, md). split; [done|].
    by apply list_elem_of_filter.
Qed.

Lemma holders_nil k models :
  holders facts k models = [] ↔ k ∉ ⋃ (facts <$> models.*2).
Proof.
  rewrite elem_of_all_facts. split.
  - intros Hnil ([n md] & Hin & Hk).
    assert (n ∈ holders facts k models) as Hn
      by (apply elem_of_holders; eauto).
    rewrite Hnil in Hn. by apply elem_of_nil in Hn.
  - intros Hno. destruct (holders facts k models) as [|n l] eqn:E; [done|].
    assert (n ∈ holders facts k models) as Hn by (rewrite E; left).
    apply elem_of_holders in Hn as (md & Hin & Hk).
    exfalso. apply Hno. by exists (n, md).
Qed.

(** The inner loop extends the list under [k] by the holders of [k] and
    touches no other key. *)
Lemma presence_row_lookup models d k k' :
  presence_row facts models d k !! k'
  = if decide (k' = k ∧ holders facts k models ≠ [])
    then Some (default [] (d !! k) ++ holders facts k models)
    else d !! k'.
Proof.
  unfold presence_row, holders. revert d.
  induction models as [|[n md] models IH]; intros d; simpl.
  - rewrite decide_False; [done | by intros [_ ?]].
  - rewrite IH. clear IH.
    destruct (decide (k ∈ facts md)) as [Hk|Hk].
    + rewrite filter_cons_True by done. rewrite fmap_cons. simpl.
      set (hs := (filter _ models).*1). unfold dd_append.
      destruct (decide (k' = k)) as [->|Hne].
      * rewrite lookup_insert_eq. simpl. rewrite <- app_assoc. simpl.
        rewrite (decide_True (P := k = k ∧ n :: hs ≠ [])) by done.
        destruct hs as [|h hs].
        -- by rewrite decide_False by (by intros [_ ?]).
        -- by rewrite decide_True.
      * rewrite !decide_False by (by intros [? _]).
        by rewrite lookup_insert_ne.
    + by rewrite filter_cons_False by done.
Qed.

Lemma presence_acc_lookup models (l : list K) d k :
  NoDup l →
  foldl (presence_row facts models) d l !! k
  = if decide (k ∈ l ∧ holders facts k models ≠ [])
    then Some (default [] (d !! k) ++ holders facts k models)
    else d !! k.
Proof.
  intros Hnd. revert d. induction Hnd as [|k0 l Hnin Hnd IH]; intros d; simpl.
  - done.
  - rewrite IH. rewrite !presence_row_lookup.
    destruct (decide (k = k0)) as [->|Hne].
    + rewrite (decide_False (P := k0 ∈ l ∧ _)) by (by intros [? _]).
      destruct (decide (holders facts k0 models = [])) as [E|E].
      * rewrite !decide_False; [done| |]; by intros [_ ?].
      * rewrite !decide_True; [done| |]; split; done || by left.
    + rewrite !(decide_False (P := k = k0 ∧ _)) by (by intros [? _]).
      destruct (decide (k ∈ l ∧ holders facts k models ≠ [])) as [[? ?]|Hn].
      * rewrite decide_True; [done|]. split; [by right | done].
      * rewrite decide_False; [done|].
        intros [[?|?]%elem_of_cons ?]; [done|]. by apply Hn.
Qed.

(** The presence index maps every fact of [all] that some model holds to
    the names of its holders, in registry order, and has no other key. *)
Lemma presence_lookup (all : gset K) models k :
  presence facts all models !! k
  = if decide (k ∈ all ∧ holders facts k models ≠ [])
    then Some (holders facts k models) else None.
Proof.
  unfold presence. rewrite presence_acc_lookup by apply NoDup_elements.
  rewrite lookup_empty. simpl.
  destruct (decide (k ∈ all ∧ _)) as [[? ?]|Hn].
  - rewrite decide_True; [done|]. split; [by apply elem_of_elements | done].
  - rewrite decide_False; [done|].
    intros [?%elem_of_elements ?]. by apply Hn.
Qed.
End presence_facts.

(** ** Reads of a [defaultdict] *)

Section overlap_facts.
Context {K : Type} `{Countable K}.
Implicit Types (d : gmap K (list string)) (k : K) (fs : gset K).

#[global] Instance dd_equiv_equivalence :
  Equivalence (dd_equiv (K:=K)).
Proof.
  split.
  - by intros d k.
  - intros d d' E k. by rewrite E.
  - intros d1 d2 d3 E1 E2 k. by rewrite E1, E2.
Qed.

Lemma dd_getitem_value d k : (dd_getitem d k).1 = default [] (d !! k).
Proof. unfold dd_getitem. by destruct (d !! k). Qed.

Lemma dd_getitem_equiv d k : dd_equiv d (dd_getitem d k).2.
Proof.
  unfold dd_getitem. destruct (d !! k) as [v|] eqn:E; simpl; [done|].
  intros k'. destruct (decide (k = k')) as [<-|Hne].
  - by rewrite lookup_insert_eq, E.
  - by rewrite lookup_insert_ne.
Qed.

Lemma dd_getitem_present d k : is_Some (d !! k) → (dd_getitem d k).2 = d.
Proof. intros [v E]. unfold dd_getitem. by rewrite E. Qed.

Lemma plen_equiv d d' k : dd_equiv d d' → plen d k = plen d' k.
Proof. intros E. unfold plen. by rewrite E. Qed.

Lemma corroborated_equiv d d' fs :
  dd_equiv d d' → corroborated d fs = corroborated d' fs.
Proof.
  intros E. apply set_eq. intros k. unfold corroborated.
  rewrite !elem_of_filter. by rewrite (plen_equiv d d' k E).
Qed.

Lemma size_corroborated d fs :
  size (corroborated d fs)
  = length (filter (λ k, 1 < plen d k) (elements fs)).
Proof.
  unfold corroborated, filter at 1, set_filter.
  rewrite size_list_to_set; [done|].
  apply NoDup_filter, NoDup_elements.
Qed.

Lemma size_corroborated_le d fs : size (corroborated d fs) ≤ size fs.
Proof. apply subseteq_size. intros k [_ ?]%elem_of_filter. done. Qed.

Lemma overlap_acc d (l : list K) (acc : list nat) d0 :
  dd_equiv d d0 →
  let r := foldl overlap_step (acc, d0) l in
  sum_list r.1 = sum_list acc + length (filter (λ k, 1 < plen d k) l)
  ∧ dd_equiv d r.2
  ∧ ((∀ k, k ∈ l → is_Some (d0 !! k)) → r.2 = d0).
Proof.
  revert acc d0. induction l as [|k l IH]; intros acc d0 E; simpl.
  - split; [lia|]. split; [done|]. done.
  - assert (∃ d1, overlap_step (acc, d0) k
                  = (if decide (1 < plen d k) then acc ++ [1] else acc, d1)
                  ∧ dd_equiv d d1 ∧ (is_Some (d0 !! k) → d1 = d0))
      as (d1 & Hstep & E1 & Hp).
    { unfold overlap_step. simpl.
      pose proof (dd_getitem_value d0 k) as Hv.
      pose proof (dd_getitem_equiv d0 k) as He.
      pose proof (dd_getitem_present d0 k) as Hp.
      destruct (dd_getitem d0 k) as [v d1]. simpl in Hv, He, Hp.
      exists d1. split; [|split]; [|by etrans|done].
      unfold plen. by rewrite Hv, (E k). }
    rewrite Hstep.
    destruct (IH (if decide (1 < plen d k) then acc ++ [1] else acc) d1 E1)
      as (IH1 & IH2 & IH3).
    split; [|split].
    + rewrite IH1, filter_cons.
      destruct (decide (1 < plen d k)); simpl;
        rewrite ?sum_list_with_app; simpl; lia.
    + done.
    + intros Hall. assert (d1 = d0) as -> by (apply Hp, Hall; left).
      apply IH3. intros k' Hk'. apply Hall. by right.
Qed.

(** The comprehension sums to the number of corroborated facts; the reads
    leave every presence list as it was, and the index itself when every
    fact read is a key. *)
Lemma overlap_ones_spec fs d :
  sum_list (overlap_ones fs d).1 = size (corroborated d fs)
  ∧ dd_equiv d (overlap_ones fs d).2
  ∧ (fs ⊆ dom d → (overlap_ones fs d).2 = d).
Proof.
  destruct (overlap_acc d (elements fs) [] d) as (H1 & H2 & H3); [done|].
  unfold overlap_ones.
  split; [|split].
  - by rewrite H1, size_corroborated.
  - done.
  - intros Hsub. apply H3. intros k Hk%elem_of_elements.
    by apply elem_of_dom, Hsub.
Qed.
End overlap_facts.

(** ** The scorer computes [metrics_of] *)

Lemma cmp_equiv_refl c : cmp_equiv c c.
Proof. by split. Qed.

Lemma cmp_equiv_trans c1 c2 c3 :
  cmp_equiv c1 c2 → cmp_equiv c2 c3 → cmp_equiv c1 c3.
Proof. intros [? ?] [? ?]. split; by etrans. Qed.

Lemma metrics_of_equiv ac ar c c' md :
  cmp_equiv c c' → metrics_of ac ar c md = metrics_of ac ar c' md.
Proof.
  intros [Ec Er]. unfold metrics_of.
  by rewrite (corroborated_equiv _ _ _ Ec), (corroborated_equiv _ _ _ Er).
Qed.

Lemma guard_ratio {A} `{Countable A} (X : gset A) (a : nat) :
  (if decide (X ≠ ∅) then py_div a (size X) else 0%Q) = ratio a (size X).
Proof.
  unfold ratio. destruct (decide (X ≠ ∅)) as [Hne|He].
  - rewrite decide_False; [done|]. by intros ?%size_empty_inv%leibniz_equiv.
  - rewrite decide_True; [done|]. apply dec_stable in He. by rewrite He.
Qed.

Lemma guard_ratio2 {A B} `{Countable A} `{Countable B}
    (X : gset A) (Y : gset B) (a : nat) :
  (if decide (X ≠ ∅ ∨ Y ≠ ∅) then py_div a (size X + size Y) else 0%Q)
  = ratio a (size X + size Y).
Proof.
  unfold ratio. destruct (decide (X ≠ ∅ ∨ Y ≠ ∅)) as [Hne|He].
  - rewrite decide_False; [done|]. intros Hz.
    assert (size X = 0 ∧ size Y = 0) as [HX HY] by lia.
    apply size_empty_inv, leibniz_equiv in HX.
    apply size_empty_inv, leibniz_equiv in HY. by destruct Hne.
  - rewrite decide_True; [done|].
    destruct (decide (X = ∅)) as [->|?]; [|by destruct He; left].
    destruct (decide (Y = ∅)) as [->|?]; [|by destruct He; right].
    done.
Qed.

Lemma evaluate_step_spec ac ar s m c name md :
  ∃ c', evaluate_step ac ar (s, m, c) (name, md)
        = (Dict.set s name (total_score (metrics_of ac ar c md)),
           Dict.set m name (metrics_of ac ar c md), c')
        ∧ cmp_equiv c c' ∧ (covered c md → c' = c).
Proof.
  unfold evaluate_step.
  destruct (overlap_ones_spec (classes md) (cmp_classes c)) as (C1 & C2 & C3).
  destruct (overlap_ones_spec (relationships md) (cmp_relationships c))
    as (R1 & R2 & R3).
  destruct (overlap_ones (classes md) (cmp_classes c)) as [ones_c cp].
  destruct (overlap_ones (relationships md) (cmp_relationships c))
    as [ones_r rp].
  simpl in *. eexists. split; [|split].
  - rewrite !guard_ratio, guard_ratio2, C1, R1. reflexivity.
  - by split.
  - intros [Hc Hr]. rewrite (C3 Hc), (R3 Hr). by destruct c.
Qed.

Lemma evaluate_models_acc ac ar c models s m c0 :
  cmp_equiv c c0 →
  let r := foldl (evaluate_step ac ar) (s, m, c0) models in
  r.1.1 = foldl (λ s e, Dict.set s e.1 (total_score (metrics_of ac ar c e.2)))
                s models
  ∧ r.1.2 = foldl (λ m e, Dict.set m e.1 (metrics_of ac ar c e.2)) m models
  ∧ cmp_equiv c r.2
  ∧ ((∀ e, e ∈ models → covered c0 e.2) → r.2 = c0).
Proof.
  revert s m c0. induction models as [|[name md] models IH];
    intros s m c0 E; cbn [foldl].
  - done.
  - destruct (evaluate_step_spec ac ar s m c0 name md) as (c1 & -> & E1 & F1).
    rewrite <- (metrics_of_equiv ac ar c c0 md E).
    destruct (IH (Dict.set s name (total_score (metrics_of ac ar c md)))
                 (Dict.set m name (metrics_of ac ar c md)) c1)
      as (I1 & I2 & I3 & I4); [by eapply cmp_equiv_trans|].
    split; [done|]. split; [done|]. split; [done|].
    intros Hall. assert (c1 = c0) as -> by (apply F1, (Hall (name, md)); left).
    apply I4. intros e He. apply Hall. by right.
Qed.

(** A dict filled from [[]] by one assignment per entry of a dict with
    unique keys lists those keys in the same order. *)
Lemma dict_fill_acc {V W} (f : V → W) (l : list (string * V))
    (d : list (string * W)) :
  NoDup (Dict.keys d ++ Dict.keys l) →
  foldl (λ d e, Dict.set d e.1 (f e.2)) d l
  = d ++ ((λ e, (e.1, f e.2)) <$> l).
Proof.
  revert d. induction l as [|[k v] l IH]; intros d Hnd; simpl.
  - by rewrite app_nil_r.
  - assert (Dict.set d k (f v) = d ++ [(k, f v)]) as ->.
    { apply NoDup_app in Hnd as (_ & Hdis & _).
      assert (k ∉ Dict.keys d) as Hk
        by (intros Hin; apply (Hdis k Hin); left).
      clear -Hk. induction d as [|[k0 w0] d IHd]; simpl; [done|].
      apply not_elem_of_cons in Hk as [? ?].
      rewrite decide_False by done. f_equal. by apply IHd. }
    rewrite IH.
    + by rewrite <- app_assoc.
    + unfold Dict.keys in *. rewrite fmap_app. simpl in *.
      rewrite <- app_assoc. done.
Qed.

Lemma dict_fill {V W} (f : V → W) (l : list (string * V)) :
  Dict.wf l →
  foldl (λ d e, Dict.set d e.1 (f e.2)) [] l = (λ e, (e.1, f e.2)) <$> l.
Proof. intros Hwf. by rewrite dict_fill_acc. Qed.

(** The scorer, on any arguments: the metrics of each model are those of
    [metrics_of] on the comparison it was given. *)
Lemma evaluate_models_spec models ac ar c :
  Dict.wf models →
  let r := evaluate_models models ac ar c in
  r.1.1 = (λ e, (e.1, total_score (metrics_of ac ar c e.2))) <$> models
  ∧ r.1.2 = (λ e, (e.1, metrics_of ac ar c e.2)) <$> models
  ∧ cmp_equiv c r.2.
Proof.
  intros Hwf. unfold evaluate_models.
  destruct (evaluate_models_acc ac ar c models [] [] c (cmp_equiv_refl c))
    as (H1 & H2 & H3 & _).
  cbv zeta in *. split; [|split]; [| |done].
  - etrans; [exact H1|].
    by apply (dict_fill (λ md, total_score (metrics_of ac ar c md))).
  - etrans; [exact H2|].
    by apply (dict_fill (λ md, metrics_of ac ar c md)).
Qed.

(** ** The run: reconciler, then scorer *)

Lemma compare_models_eq models :
  compare_models models
  = ({| cmp_classes := presence classes (all_classes_of models) models;
        cmp_relationships :=
          presence relationships (all_relationships_of models) models |},
     all_classes_of models, all_relationships_of models).
Proof.
  unfold all_classes_of, all_relationships_of, compare_models.
  by destruct (unions models).
Qed.

Lemma all_classes_of_eq models :
  all_classes_of models = ⋃ (classes <$> models.*2).
Proof.
  unfold all_classes_of, compare_models. by rewrite unions_spec.
Qed.

Lemma all_relationships_of_eq models :
  all_relationships_of models = ⋃ (relationships <$> models.*2).
Proof.
  unfold all_relationships_of, compare_models. by rewrite unions_spec.
Qed.

Lemma cmp_classes_lookup models c :
  cmp_classes (comparison_of models) !! c
  = if decide (holders classes c models ≠ [])
    then Some (holders classes c models) else None.
Proof.
  unfold comparison_of. rewrite compare_models_eq. simpl.
  rewrite presence_lookup, all_classes_of_eq.
  destruct (decide (holders classes c models ≠ [])) as [Hne|He].
  - rewrite decide_True; [done|]. split; [|done].
    destruct (decide (c ∈ ⋃ (classes <$> models.*2))) as [|Hn]; [done|].
    by apply holders_nil in Hn.
  - rewrite decide_False; [done|]. by intros [_ ?].
Qed.

Lemma cmp_relationships_lookup models r :
  cmp_relationships (comparison_of models) !! r
  = if decide (holders relationships r models ≠ [])
    then Some (holders relationships r models) else None.
Proof.
  unfold comparison_of. rewrite compare_models_eq. simpl.
  rewrite presence_lookup, all_relationships_of_eq.
  destruct (decide (holders relationships r models ≠ [])) as [Hne|He].
  - rewrite decide_True; [done|]. split; [|done].
    destruct (decide (r ∈ ⋃ (relationships <$> models.*2))) as [|Hn]; [done|].
    by apply holders_nil in Hn.
  - rewrite decide_False; [done|]. by intros [_ ?].
Qed.

Lemma plen_classes models c :
  plen (cmp_classes (comparison_of models)) c
  = length (holders classes c models).
Proof.
  unfold plen. rewrite cmp_classes_lookup.
  destruct (decide (holders classes c models ≠ [])) as [|He]; [done|].
  apply dec_stable in He. by rewrite He.
Qed.

Lemma plen_relationships models r :
  plen (cmp_relationships (comparison_of models)) r
  = length (holders relationships r models).
Proof.
  unfold plen. rewrite cmp_relationships_lookup.
  destruct (decide (holders relationships r models ≠ [])) as [|He]; [done|].
  apply dec_stable in He. by rewrite He.
Qed.

(** Every fact of a registered model is a key of the comparison, so the
    scorer's reads store nothing. *)
Lemma covered_comparison_of models entry :
  entry ∈ models → covered (comparison_of models) entry.2.
Proof.
  intros Hin. destruct entry as [n md]. split; intros k Hk; simpl in *;
    apply elem_of_dom.
  - rewrite cmp_classes_lookup.
    assert (n ∈ holders classes k models) as Hn
      by (apply elem_of_holders; eauto).
    rewrite decide_True; [done|]. intros E. rewrite E in Hn.
    by apply elem_of_nil in Hn.
  - rewrite cmp_relationships_lookup.
    assert (n ∈ holders relationships k models) as Hn
      by (apply elem_of_holders; eauto).
    rewrite decide_True; [done|]. intros E. rewrite E in Hn.
    by apply elem_of_nil in Hn.
Qed.

Lemma run_eq models :
  run models
  = evaluate_models models (all_classes_of models)
      (all_relationships_of models) (comparison_of models).
Proof.
  unfold run, comparison_of, all_classes_of, all_relationships_of.
  by destruct (compare_models models) as [[? ?] ?].
Qed.

Lemma run_spec models :
  Dict.wf models →
  scores_of models = (λ e, (e.1, total_score (run_metrics models e.2))) <$> models
  ∧ metrics_dict_of models = (λ e, (e.1, run_metrics models e.2)) <$> models
  ∧ (run models).2 = comparison_of models.
Proof.
  intros Hwf. unfold scores_of, metrics_dict_of. rewrite run_eq.
  destruct (evaluate_models_spec models (all_classes_of models)
              (all_relationships_of models) (comparison_of models) Hwf)
    as (H1 & H2 & _).
  split; [done|]. split; [done|].
  unfold evaluate_models.
  destruct (evaluate_models_acc (all_classes_of models)
              (all_relationships_of models) (comparison_of models) models
              [] [] (comparison_of models) (cmp_equiv_refl _))
    as (_ & _ & _ & H4).
  apply H4. intros e He. by apply covered_comparison_of.
Qed.

Lemma dict_keys_fmap {V W} (g : string * V → W) (l : list (string * V)) :
  Dict.keys ((λ e, (e.1, g e)) <$> l) = Dict.keys l.
Proof.
  unfold Dict.keys. induction l as [|e l IH]; [done|].
  rewrite !fmap_cons. simpl. by f_equal.
Qed.

Lemma dict_wf_fmap {V W} (g : string * V → W) (l : list (string * V)) :
  Dict.wf l → Dict.wf ((λ e, (e.1, g e)) <$> l).
Proof. unfold Dict.wf. by rewrite dict_keys_fmap. Qed.

Lemma run_metrics_get models name md :
  Dict.wf models → (name, md) ∈ models →
  Dict.get (metrics_dict_of models) name = Some (run_metrics models md).
Proof.
  intros Hwf Hin. destruct (run_spec models Hwf) as (_ & -> & _).
  apply dict_get_elem_of.
  - by apply (dict_wf_fmap (λ e, run_metrics models e.2)).
  - apply list_elem_of_fmap. by exists (name, md).
Qed.

Lemma run_scores_get models name md :
  Dict.wf models → (name, md) ∈ models →
  Dict.get (scores_of models) name
  = Some (total_score (run_metrics models md)).
Proof.
  intros Hwf Hin. destruct (run_spec models Hwf) as (-> & _ & _).
  apply dict_get_elem_of.
  - by apply (dict_wf_fmap (λ e, total_score (run_metrics models e.2))).
  - apply list_elem_of_fmap. by exists (name, md).
Qed.

(** ** Arithmetic of the ratios *)

Lemma Zpos_of_nat (b : nat) : b ≠ 0 → Z.pos (Pos.of_nat b) = Z.of_nat b.
Proof.
  intros Hb. rewrite <- positive_nat_Z. by rewrite Nat2Pos.id.
Qed.

Lemma ratio_nonneg (a b : nat) : (0 <= ratio a b)%Q.
Proof.
  unfold ratio. destruct (decide (b = 0)); [apply Qle_refl|].
  unfold py_div, Qle. simpl. lia.
Qed.

Lemma ratio_le_1 (a b : nat) : a ≤ b → (ratio a b <= 1)%Q.
Proof.
  intros Hab. unfold ratio. destruct (decide (b = 0)); [done|].
  unfold py_div, Qle. simpl. rewrite Zpos_of_nat by done. lia.
Qed.

Lemma ratio_eq_1 (a b : nat) : (ratio a b == 1)%Q ↔ a = b ∧ b ≠ 0.
Proof.
  unfold ratio. destruct (decide (b = 0)) as [->|Hb].
  - split; [intros Hq; by inversion Hq | by intros [_ ?]].
  - unfold py_div, Qeq. simpl. rewrite Zpos_of_nat by done. lia.
Qed.

Lemma ratio_zero_num (b : nat) : (ratio 0 b == 0)%Q.
Proof.
  unfold ratio. destruct (decide (b = 0)); [done|]. by unfold py_div, Qeq.
Qed.

Lemma ratio_mono (a a' b : nat) : a ≤ a' → (ratio a b <= ratio a' b)%Q.
Proof.
  intros Ha. unfold ratio. destruct (decide (b = 0)); [apply Qle_refl|].
  unfold py_div, Qle. simpl. nia.
Qed.

Lemma weighted_bounds (rc pc rr pr ov : Q) :
  (0 <= rc <= 1)%Q → (0 <= pc <= 1)%Q → (0 <= rr <= 1)%Q →
  (0 <= pr <= 1)%Q → (0 <= ov <= 1)%Q →
  (0 <= weighted rc pc rr pr ov <= 1)%Q.
Proof. unfold weighted. intros. lra. Qed.

(** ** Holders of a fact *)

Section holders_facts.
Context {K : Type} `{Countable K}.
Variable facts : model_data → gset K.
Implicit Types (k : K) (models : registry).

Lemma holders_cons k name md models :
  holders facts k ((name, md) :: models)
  = if decide (k ∈ facts md) then name :: holders facts k models
    else holders facts k models.
Proof.
  unfold holders. rewrite filter_cons. simpl.
  by destruct (decide (k ∈ facts md)).
Qed.

Lemma holders_app k models models' :
  holders facts k (models ++ models')
  = holders facts k models ++ holders facts k models'.
Proof. unfold holders. by rewrite filter_app, fmap_app. Qed.

Lemma holders_keys k name models :
  name ∈ holders facts k models → name ∈ Dict.keys models.
Proof.
  intros (md & Hin & _)%elem_of_holders.
  by apply (list_elem_of_fmap_2 fst) in Hin.
Qed.

Lemma holders_NoDup k models :
  Dict.wf models → NoDup (holders facts k models).
Proof.
  unfold Dict.wf. induction models as [|[n md] models IH]; simpl.
  - intros _. apply NoDup_nil_2.
  - intros [Hnin Hnd]%NoDup_cons. rewrite holders_cons.
    destruct (decide (k ∈ facts md)); [|by apply IH].
    apply NoDup_cons. split; [|by apply IH].
    intros Hn. by apply holders_keys in Hn.
Qed.

Lemma holders_nonempty k models :
  k ∈ ⋃ (facts <$> models.*2) → 1 ≤ length (holders facts k models).
Proof.
  intros Hk. destruct (holders facts k models) as [|n l] eqn:E.
  - apply holders_nil in E. done.
  - simpl. lia.
Qed.

(** With unique model names, a fact of a model has more than one holder
    exactly when another model holds it too. *)
Lemma holders_other k name md models :
  Dict.wf models → (name, md) ∈ models → k ∈ facts md →
  1 < length (holders facts k models)
  ↔ ∃ name' md', name' ≠ name ∧ (name', md') ∈ models ∧ k ∈ facts md'.
Proof.
  intros Hwf Hin Hk.
  assert (name ∈ holders facts k models) as Hname
    by (apply elem_of_holders; eauto).
  pose proof (holders_NoDup k models Hwf) as Hnd.
  split.
  - intros Hlen.
    destruct (holders facts k models) as [|a [|b l]] eqn:E;
      simpl in Hlen; [lia..|].
    apply NoDup_cons in Hnd as [Hab _].
    assert (a ≠ b) as Hne by (intros ->; apply Hab; left).
    destruct (decide (a = name)) as [->|Ha].
    + assert (b ∈ holders facts k models) as Hb
        by (rewrite E; right; left).
      apply elem_of_holders in Hb as (md' & ? & ?).
      exists b, md'. by repeat split.
    + assert (a ∈ holders facts k models) as Ha' by (rewrite E; left).
      apply elem_of_holders in Ha' as (md' & ? & ?).
      exists a, md'. by repeat split.
  - intros (name' & md' & Hne & Hin' & Hk').
    assert (name' ∈ holders facts k models) as Hname'
      by (apply elem_of_holders; eauto).
    destruct (holders facts k models) as [|a [|b l]]; simpl.
    + by apply elem_of_nil in Hname.
    + apply list_elem_of_singleton in Hname, Hname'. congruence.
    + lia.
Qed.
End holders_facts.

(** * The claims *)

(** C5. For every registry, every class of [all_classes] has a presence
    list of length at least 1, and every key of the class presence index
    is a class of at least one model of the registry; the same holds of the
    relationship presence index. *)
Theorem presence_no_orphans (models : registry) :
  (∀ c, c ∈ all_classes_of models →
     ∃ l, cmp_classes (comparison_of models) !! c = Some l ∧ 1 ≤ length l)
  ∧ (∀ c l, cmp_classes (comparison_of models) !! c = Some l →
       ∃ name md, (name, md) ∈ models ∧ c ∈ classes md)
  ∧ (∀ r, r ∈ all_relationships_of models →
       ∃ l, cmp_relationships (comparison_of models) !! r = Some l
            ∧ 1 ≤ length l)
  ∧ (∀ r l, cmp_relationships (comparison_of models) !! r = Some l →
       ∃ name md, (name, md) ∈ models ∧ r ∈ relationships md).
Proof.
  split; [|split; [|split]].
  - intros c Hc. rewrite all_classes_of_eq in Hc.
    pose proof (holders_nonempty classes c models Hc) as Hlen.
    exists (holders classes c models). split; [|done].
    rewrite cmp_classes_lookup, decide_True; [done|].
    intros E. rewrite E in Hlen. simpl in Hlen. lia.
  - intros c l. rewrite cmp_classes_lookup.
    destruct (decide (holders classes c models ≠ [])) as [Hne|]; [|done].
    intros _. destruct (holders classes c models) as [|n hs] eqn:E; [done|].
    assert (n ∈ holders classes c models) as Hn by (rewrite E; left).
    apply elem_of_holders in Hn as (md & ? & ?). eauto.
  - intros r Hr. rewrite all_relationships_of_eq in Hr.
    pose proof (holders_nonempty relationships r models Hr) as Hlen.
    exists (holders relationships r models). split; [|done].
    rewrite cmp_relationships_lookup, decide_True; [done|].
    intros E. rewrite E in Hlen. simpl in Hlen. lia.
  - intros r l. rewrite cmp_relationships_lookup.
    destruct (decide (holders relationships r models ≠ [])) as [Hne|]; [|done].
    intros _.
    destruct (holders relationships r models) as [|n hs] eqn:E; [done|].
    assert (n ∈ holders relationships r models) as Hn by (rewrite E; left).
    apply elem_of_holders in Hn as (md & ? & ?). eauto.
Qed.

Ltac dict_wf :=
  unfold Dict.wf, Dict.keys; apply (bool_decide_unpack _); by vm_compute.

(** C1. For a model [name] of a registry, the scorer's [precision_classes]
    is the number of classes of the model whose presence list is longer
    than 1, divided by the number of classes of the model, and 0 when the
    model has no class; and a class of the model has such a presence list
    exactly when a model of another name contains it. *)
Theorem precision_classes_spec (models : registry) (name : string)
    (md : model_data) :
  Dict.wf models → (name, md) ∈ models →
  ∃ rec, Dict.get (metrics_dict_of models) name = Some rec
    ∧ precision_classes rec
      = (if decide (classes md = ∅) then 0%Q
         else py_div
                (size (filter
                         (λ c, 1 < length (default []
                                   (cmp_classes (comparison_of models) !! c)))
                         (classes md)))
                (size (classes md)))
    ∧ ∀ c, c ∈ classes md →
        1 < length (default [] (cmp_classes (comparison_of models) !! c))
        ↔ ∃ name' md', name' ≠ name ∧ (name', md') ∈ models ∧ c ∈ classes md'.
Proof.
  intros Hwf Hin. exists (run_metrics models md).
  split; [by apply run_metrics_get|]. split.
  - unfold run_metrics, metrics_of, ratio. simpl.
    destruct (decide (classes md = ∅)) as [->|Hne].
    + by rewrite size_empty.
    + rewrite decide_False; [done|].
      by intros ?%size_empty_inv%leibniz_equiv.
  - intros c Hc. fold (plen (cmp_classes (comparison_of models)) c).
    rewrite plen_classes. by apply (holders_other classes c name md).
Qed.

Lemma precision_classes_spec_witness :
  Dict.wf registry_AB ∧ ("A", model_A) ∈ registry_AB
  ∧ ∃ rec, Dict.get (metrics_dict_of registry_AB) "A" = Some rec
    ∧ precision_classes rec
      = (if decide (classes model_A = ∅) then 0%Q
         else py_div
                (size (filter
                         (λ c, 1 < length (default []
                                   (cmp_classes (comparison_of registry_AB) !! c)))
                         (classes model_A)))
                (size (classes model_A)))
    ∧ ∀ c, c ∈ classes model_A →
        1 < length (default [] (cmp_classes (comparison_of registry_AB) !! c))
        ↔ ∃ name' md', name' ≠ "A" ∧ (name', md') ∈ registry_AB
                       ∧ c ∈ classes md'.
Proof.
  assert (Dict.wf registry_AB) as Hwf by dict_wf.
  assert (("A", model_A) ∈ registry_AB) as Hin by left.
  split; [exact Hwf|]. split; [exact Hin|].
  exact (precision_classes_spec registry_AB "A" model_A Hwf Hin).
Defined.

Lemma classes_subseteq_all models name md :
  (name, md) ∈ models → classes md ⊆ all_classes_of models.
Proof.
  intros Hin c Hc. rewrite all_classes_of_eq.
  apply (elem_of_all_facts classes). by exists (name, md).
Qed.

Lemma relationships_subseteq_all models name md :
  (name, md) ∈ models → relationships md ⊆ all_relationships_of models.
Proof.
  intros Hin r Hr. rewrite all_relationships_of_eq.
  apply (elem_of_all_facts relationships). by exists (name, md).
Qed.

(** C2, as the scorer has it. For a model [name] of a registry,
    [recall_classes] lies in [0,1]; it is 1 exactly when the classes of the
    model are all the classes of the registry and there is at least one
    class. *)
Theorem recall_classes_range (models : registry) (name : string)
    (md : model_data) :
  Dict.wf models → (name, md) ∈ models →
  ∃ rec, Dict.get (metrics_dict_of models) name = Some rec
    ∧ (0 <= recall_classes rec <= 1)%Q
    ∧ ((recall_classes rec == 1)%Q
       ↔ classes md = all_classes_of models ∧ all_classes_of models ≠ ∅).
Proof.
  intros Hwf Hin. exists (run_metrics models md).
  split; [by apply run_metrics_get|].
  pose proof (classes_subseteq_all models name md Hin) as Hsub.
  unfold run_metrics, metrics_of. simpl. split; [split|].
  - apply ratio_nonneg.
  - by apply ratio_le_1, subseteq_size.
  - rewrite ratio_eq_1. split.
    + intros [Hsz Hnz]. split.
      * assert (size (all_classes_of models) ≤ size (classes md)) as Hle by lia.
        exact (set_subseteq_size_eq _ _ Hsub Hle).
      * intros E. rewrite E, size_empty in Hnz. done.
    + intros [-> Hne]. split; [done|].
      by intros ?%size_empty_inv%leibniz_equiv.
Qed.

Lemma recall_classes_range_witness :
  Dict.wf registry_AB ∧ ("A", model_A) ∈ registry_AB
  ∧ ∃ rec, Dict.get (metrics_dict_of registry_AB) "A" = Some rec
    ∧ (0 <= recall_classes rec <= 1)%Q
    ∧ ((recall_classes rec == 1)%Q
       ↔ classes model_A = all_classes_of registry_AB
         ∧ all_classes_of registry_AB ≠ ∅).
Proof.
  assert (Dict.wf registry_AB) as Hwf by dict_wf.
  assert (("A", model_A) ∈ registry_AB) as Hin by left.
  split; [exact Hwf|]. split; [exact Hin|].
  exact (recall_classes_range registry_AB "A" model_A Hwf Hin).
Defined.

(** C2 as stated fails: the only model of [registry_E] has all the classes
    of the registry (none), and its [recall_classes] is 0. *)
Lemma recall_classes_empty_counterexample :
  Dict.wf registry_E ∧ ("E", model_empty) ∈ registry_E
  ∧ ∃ rec, Dict.get (metrics_dict_of registry_E) "E" = Some rec
    ∧ ¬ ((recall_classes rec == 1)%Q
         ↔ classes model_empty = all_classes_of registry_E).
Proof.
  split; [dict_wf|]. split; [left|].
  exists (run_metrics registry_E model_empty).
  split; [by vm_compute|].
  intros [_ Hback].
  assert (recall_classes (run_metrics registry_E model_empty) == 1)%Q as Hq
    by (apply Hback; by vm_compute).
  vm_compute in Hq. discriminate Hq.
Qed.

(** C6. For a model [name] of a registry, the six fields of its metrics
    record lie in [0,1]. *)
Theorem metrics_in_unit_interval (models : registry) (name : string)
    (md : model_data) :
  Dict.wf models → (name, md) ∈ models →
  ∃ rec, Dict.get (metrics_dict_of models) name = Some rec
    ∧ (0 <= recall_classes rec <= 1)%Q
    ∧ (0 <= precision_classes rec <= 1)%Q
    ∧ (0 <= recall_relationships rec <= 1)%Q
    ∧ (0 <= precision_relationships rec <= 1)%Q
    ∧ (0 <= overlap_score rec <= 1)%Q
    ∧ (0 <= total_score rec <= 1)%Q.
Proof.
  intros Hwf Hin. exists (run_metrics models md).
  split; [by apply run_metrics_get|].
  pose proof (classes_subseteq_all models name md Hin) as Hc.
  pose proof (relationships_subseteq_all models name md Hin) as Hr.
  pose proof (size_corroborated_le (cmp_classes (comparison_of models))
                (classes md)) as Hcc.
  pose proof (size_corroborated_le (cmp_relationships (comparison_of models))
                (relationships md)) as Hcr.
  unfold run_metrics, metrics_of. simpl.
  assert (∀ a b, a ≤ b → (0 <= ratio a b <= 1)%Q) as Hratio
    by (intros a b Hab; split; [apply ratio_nonneg | by apply ratio_le_1]).
  assert (0 <= ratio (size (classes md)) (size (all_classes_of models)) <= 1)%Q
    as H1 by (by apply Hratio, subseteq_size).
  assert (0 <= ratio (size (relationships md))
                     (size (all_relationships_of models)) <= 1)%Q
    as H3 by (by apply Hratio, subseteq_size).
  split; [done|]. split; [by apply Hratio|]. split; [done|].
  split; [by apply Hratio|]. split; [apply Hratio; lia|].
  apply weighted_bounds; try done; apply Hratio; done || lia.
Qed.

Lemma metrics_in_unit_interval_witness :
  Dict.wf registry_AB ∧ ("B", model_B) ∈ registry_AB
  ∧ ∃ rec, Dict.get (metrics_dict_of registry_AB) "B" = Some rec
    ∧ (0 <= recall_classes rec <= 1)%Q
    ∧ (0 <= precision_classes rec <= 1)%Q
    ∧ (0 <= recall_relationships rec <= 1)%Q
    ∧ (0 <= precision_relationships rec <= 1)%Q
    ∧ (0 <= overlap_score rec <= 1)%Q
    ∧ (0 <= total_score rec <= 1)%Q.
Proof.
  assert (Dict.wf registry_AB) as Hwf by dict_wf.
  assert (("B", model_B) ∈ registry_AB) as Hin by (right; left).
  split; [exact Hwf|]. split; [exact Hin|].
  exact (metrics_in_unit_interval registry_AB "B" model_B Hwf Hin).
Defined.

Lemma holders_single {K} `{Countable K} (facts : model_data → gset K)
    (k : K) (name : string) (md : model_data) :
  holders facts k [(name, md)] = if decide (k ∈ facts md) then [name] else [].
Proof. by rewrite holders_cons. Qed.

Lemma corroborated_single_classes name md :
  corroborated (cmp_classes (comparison_of [(name, md)])) (classes md) = ∅.
Proof.
  apply set_eq. intros c. unfold corroborated.
  rewrite elem_of_filter, plen_classes, holders_single.
  split; [|by intros ?%not_elem_of_empty].
  intros [Hlen _]. destruct (decide (c ∈ classes md)); simpl in Hlen; lia.
Qed.

Lemma corroborated_single_relationships name md :
  corroborated (cmp_relationships (comparison_of [(name, md)]))
    (relationships md) = ∅.
Proof.
  apply set_eq. intros r. unfold corroborated.
  rewrite elem_of_filter, plen_relationships, holders_single.
  split; [|by intros ?%not_elem_of_empty].
  intros [Hlen _].
  destruct (decide (r ∈ relationships md)); simpl in Hlen; lia.
Qed.

(** C9. In a registry of exactly one model, the scorer gives that model
    [precision_classes] 0, [precision_relationships] 0 and [overlap_score]
    0, and every presence list has length exactly 1. *)
Theorem single_model_no_corroboration (name : string) (md : model_data) :
  ∃ rec, Dict.get (metrics_dict_of [(name, md)]) name = Some rec
    ∧ (precision_classes rec == 0)%Q
    ∧ (precision_relationships rec == 0)%Q
    ∧ (overlap_score rec == 0)%Q
    ∧ (∀ c l, cmp_classes (comparison_of [(name, md)]) !! c = Some l →
         length l = 1)
    ∧ (∀ r l, cmp_relationships (comparison_of [(name, md)]) !! r = Some l →
         length l = 1).
Proof.
  exists (run_metrics [(name, md)] md). split.
  - apply run_metrics_get; [|left].
    unfold Dict.wf, Dict.keys. simpl. apply NoDup_singleton.
  - unfold run_metrics, metrics_of.
    cbn [precision_classes precision_relationships overlap_score].
    rewrite corroborated_single_classes, corroborated_single_relationships.
    rewrite size_empty. cbn [Nat.add].
    split; [apply ratio_zero_num|]. split; [apply ratio_zero_num|].
    split; [apply ratio_zero_num|]. split.
    + intros c l. rewrite cmp_classes_lookup, holders_single.
      destruct (decide (c ∈ classes md)); simpl; [|done].
      by intros [= <-].
    + intros r l. rewrite cmp_relationships_lookup, holders_single.
      destruct (decide (r ∈ relationships md)); simpl; [|done].
      by intros [= <-].
Qed.

Lemma dict_fill_get_fmap {V W W'} (f : V → W) (g : W → W')
    (l : list (string * V)) (s : list (string * W'))
    (m : list (string * W)) (k : string) :
  Dict.get s k = g <$> Dict.get m k →
  Dict.get (foldl (λ s e, Dict.set s e.1 (g (f e.2))) s l) k
  = g <$> Dict.get (foldl (λ m e, Dict.set m e.1 (f e.2)) m l) k.
Proof.
  revert s m. induction l as [|[k0 v0] l IH]; intros s m Hsm; simpl; [done|].
  apply IH. destruct (decide (k0 = k)) as [->|Hne].
  - by rewrite !dict_get_set_eq.
  - by rewrite !dict_get_set_ne.
Qed.

Lemma dict_fill_get_is_Some {V W} (f : V → W) (l : list (string * V))
    (m : list (string * W)) (k : string) :
  k ∈ Dict.keys l ∨ is_Some (Dict.get m k) →
  is_Some (Dict.get (foldl (λ m e, Dict.set m e.1 (f e.2)) m l) k).
Proof.
  revert m. induction l as [|[k0 v0] l IH]; intros m Hk; simpl.
  - destruct Hk as [Hk|Hk]; [by apply elem_of_nil in Hk | done].
  - apply IH. destruct (decide (k0 = k)) as [->|Hne].
    + right. rewrite dict_get_set_eq. eauto.
    + destruct Hk as [Hk|Hk].
      * left. unfold Dict.keys in *. simpl in Hk.
        apply elem_of_cons in Hk as [?|?]; [congruence | done].
      * right. by rewrite dict_get_set_ne.
Qed.

(** C10. For every registry and every model name in it, the score stored in
    [scores] is the [total_score] field of the record stored in
    [metrics]. *)
Theorem scores_agree_with_metrics (models : registry) (name : string) :
  name ∈ Dict.keys models →
  ∃ v rec, Dict.get (scores_of models) name = Some v
    ∧ Dict.get (metrics_dict_of models) name = Some rec
    ∧ v = total_score rec.
Proof.
  intros Hname. unfold scores_of, metrics_dict_of. rewrite run_eq.
  unfold evaluate_models.
  destruct (evaluate_models_acc (all_classes_of models)
              (all_relationships_of models) (comparison_of models) models
              [] [] (comparison_of models) (cmp_equiv_refl _))
    as (H1 & H2 & _).
  cbv zeta in H1, H2.
  set (f := metrics_of (all_classes_of models) (all_relationships_of models)
              (comparison_of models)) in *.
  pose proof (dict_fill_get_fmap f total_score models [] [] name eq_refl) as Hg.
  destruct (dict_fill_get_is_Some f models [] name (or_introl Hname))
    as [rec Hrec].
  exists (total_score rec), rec. split; [|split]; [| |done].
  - rewrite Hrec in Hg. etrans; [|exact Hg].
    exact (f_equal (λ d, Dict.get d name) H1).
  - rewrite <- Hrec. exact (f_equal (λ d, Dict.get d name) H2).
Qed.

Lemma scores_agree_with_metrics_witness :
  "B" ∈ Dict.keys registry_AB
  ∧ ∃ v rec, Dict.get (scores_of registry_AB) "B" = Some v
      ∧ Dict.get (metrics_dict_of registry_AB) "B" = Some rec
      ∧ v = total_score rec.
Proof.
  assert ("B" ∈ Dict.keys registry_AB) as Hin by (right; left).
  split; [exact Hin|].
  exact (scores_agree_with_metrics registry_AB "B" Hin).
Defined.

(** ** Adding a model *)

Lemma dict_set_notin {V} (d : list (string * V)) (k : string) (v : V) :
  k ∉ Dict.keys d → Dict.set d k v = d ++ [(k, v)].
Proof.
  unfold Dict.keys. induction d as [|[k0 v0] d IH]; simpl; [done|].
  intros [Hne Hnin]%not_elem_of_cons.
  rewrite decide_False by done. f_equal. by apply IH.
Qed.

Lemma dict_wf_snoc {V} (d : list (string * V)) (k : string) (v : V) :
  Dict.wf d → k ∉ Dict.keys d → Dict.wf (d ++ [(k, v)]).
Proof.
  unfold Dict.wf, Dict.keys. intros Hwf Hnin. rewrite fmap_app. simpl.
  apply NoDup_app. split; [done|]. split; [|apply NoDup_singleton].
  intros x Hx ->%list_elem_of_singleton. done.
Qed.

Lemma corroborated_classes_snoc models name' md' md :
  corroborated (cmp_classes (comparison_of models)) (classes md)
  ⊆ corroborated (cmp_classes (comparison_of (models ++ [(name', md')])))
      (classes md).
Proof.
  intros c. unfold corroborated. rewrite !elem_of_filter, !plen_classes.
  rewrite holders_app, length_app. intros [? ?]. split; [lia | done].
Qed.

(** C3. Extending a registry by one model of a new name whose classes are
    among those of a registered model [name] does not decrease the
    [precision_classes] of [name]. *)
Theorem precision_classes_monotone (models : registry) (name : string)
    (md : model_data) (name' : string) (md' : model_data) :
  Dict.wf models → (name, md) ∈ models →
  name' ∉ Dict.keys models → classes md' ⊆ classes md →
  ∃ rec rec',
    Dict.get (metrics_dict_of models) name = Some rec
    ∧ Dict.get (metrics_dict_of (Dict.set models name' md')) name = Some rec'
    ∧ (precision_classes rec <= precision_classes rec')%Q.
Proof.
  intros Hwf Hin Hnew _. rewrite dict_set_notin by done.
  exists (run_metrics models md),
         (run_metrics (models ++ [(name', md')]) md).
  split; [by apply run_metrics_get|]. split.
  - apply run_metrics_get; [by apply dict_wf_snoc|].
    apply elem_of_app. by left.
  - unfold run_metrics, metrics_of. simpl.
    apply ratio_mono, subseteq_size, corroborated_classes_snoc.
Qed.

Lemma precision_classes_monotone_witness :
  Dict.wf registry_AB ∧ ("A", model_A) ∈ registry_AB
  ∧ ("C" ∉ Dict.keys registry_AB) ∧ classes model_C ⊆ classes model_A
  ∧ ∃ rec rec',
      Dict.get (metrics_dict_of registry_AB) "A" = Some rec
      ∧ Dict.get (metrics_dict_of (Dict.set registry_AB "C" model_C)) "A"
        = Some rec'
      ∧ (precision_classes rec <= precision_classes rec')%Q.
Proof.
  assert (Dict.wf registry_AB) as Hwf by dict_wf.
  assert (("A", model_A) ∈ registry_AB) as Hin by left.
  assert ("C" ∉ Dict.keys registry_AB) as Hnew
    by (apply (bool_decide_unpack _); by vm_compute).
  assert (classes model_C ⊆ classes model_A) as Hsub
    by (apply (bool_decide_unpack _); by vm_compute).
  split; [exact Hwf|]. split; [exact Hin|]. split; [exact Hnew|].
  split; [exact Hsub|].
  exact (precision_classes_monotone registry_AB "A" model_A "C" model_C
           Hwf Hin Hnew Hsub).
Defined.

(** ** The best model *)

Lemma max_loop_spec {A} (key : A → option Q) (val : A → Q) (m : A)
    (l : list A) :
  (∀ x, x ∈ m :: l → key x = Some (val x)) →
  ∃ pre x post,
    max_loop key m (key m) l = Ok x
    ∧ m :: l = pre ++ x :: post
    ∧ (∀ y, y ∈ pre → (val y < val x)%Q)
    ∧ (∀ y, y ∈ post → (val y <= val x)%Q).
Proof.
  revert m. induction l as [|item l IH]; intros m Hkey.
  - exists [], m, []. simpl. split; [done|]. split; [done|].
    split; intros y Hy; by apply elem_of_nil in Hy.
  - cbn [max_loop].
    rewrite (Hkey item) by (right; left). rewrite (Hkey m) by left.
    cbn [py_gt mbind result_bind].
    destruct (Qle_bool (val item) (val m)) eqn:Hle; cbn [negb].
    + apply Qle_bool_iff in Hle.
      destruct (IH m) as (pre & x & post & Hres & Hsplit & Hpre & Hpost).
      { intros y [->|Hy]%elem_of_cons; apply Hkey; [left | right; by right]. }
      rewrite (Hkey m) in Hres by left.
      destruct pre as [|p pre]; simpl in Hsplit;
        injection Hsplit as Hhd Htl.
      * subst x post. exists [], m, (item :: l).
        split; [done|]. split; [done|]. split.
        -- intros y Hy. by apply elem_of_nil in Hy.
        -- intros y [->|Hy]%elem_of_cons; [done | by apply Hpost].
      * subst p l. exists (m :: item :: pre), x, post.
        split; [done|]. split; [done|]. split; [|done].
        intros y [->|[->|Hy]%elem_of_cons]%elem_of_cons.
        -- apply Hpre. left.
        -- eapply Qle_lt_trans; [exact Hle|]. apply Hpre. left.
        -- apply Hpre. by right.
    + assert (val m < val item)%Q as Hlt.
      { apply Qnot_le_lt. intros Hc. apply Qle_bool_iff in Hc. congruence. }
      destruct (IH item) as (pre & x & post & Hres & Hsplit & Hpre & Hpost).
      { intros y Hy. apply Hkey. by right. }
      rewrite (Hkey item) in Hres by (right; left).
      exists (m :: pre), x, post. split; [done|].
      split; [simpl; by rewrite Hsplit|]. split; [|done].
      intros y [->|Hy]%elem_of_cons; [|by apply Hpre].
      destruct pre as [|p pre]; simpl in Hsplit;
        injection Hsplit as Hhd Htl.
      * by subst x.
      * subst p. eapply Qlt_trans; [exact Hlt|]. apply Hpre. left.
Qed.

(** [max(scores, key=scores.get)] on a non-empty dict returns the first key
    whose value is greatest. *)
Lemma best_model_spec (scores : list (string * Q)) :
  scores ≠ [] →
  ∃ pre name post,
    best_model scores = Ok name
    ∧ Dict.keys scores = pre ++ name :: post
    ∧ (∀ n, n ∈ pre →
         (default 0 (Dict.get scores n) < default 0 (Dict.get scores name))%Q)
    ∧ (∀ n, n ∈ post →
         (default 0 (Dict.get scores n) <= default 0 (Dict.get scores name))%Q).
Proof.
  intros Hne. unfold best_model, py_max.
  destruct (Dict.keys scores) as [|k ks] eqn:E.
  { destruct scores; [done | discriminate E]. }
  apply (max_loop_spec (Dict.get scores)
           (λ n, default 0%Q (Dict.get scores n))).
  intros x Hx. rewrite <- E in Hx. apply dict_get_is_Some in Hx as [v ->].
  done.
Qed.

(** The two models of [registry_AB] tie, and the first one is the best. *)
Example best_model_AB : best_model (scores_of registry_AB) = Ok "A".
Proof. by vm_compute. Qed.

Example class_presence_AB :
  cmp_classes (comparison_of registry_AB)
  = {[ "X" := ["A"]; "Y" := ["A"; "B"]; "Z" := ["B"] ]}.
Proof. by vm_compute. Qed.

Example metrics_A :
  Dict.get (metrics_dict_of registry_AB) "A"
  = Some {| recall_classes := 2 # 3;
            precision_classes := 1 # 2;
            recall_relationships := 0;
            precision_relationships := 0;
            overlap_score := 1 # 2;
            total_score := 41000000000 # 120000000000 |}.
Proof. by vm_compute. Qed.

Lemma scores_of_empty : scores_of [] = [].
Proof. unfold scores_of. by rewrite run_eq. Qed.

Lemma best_model_empty : best_model (scores_of []) = Err ValueError.
Proof. by rewrite scores_of_empty. Qed.

(** C8, as the code has it. For the empty registry the reconciler returns
    empty unions and empty presence maps and the scorer returns empty
    [scores] and [metrics]; [max] on the empty [scores] raises the built-in
    [ValueError]. *)
Theorem empty_registry :
  compare_models []
  = ({| cmp_classes := ∅; cmp_relationships := ∅ |}, ∅, ∅)
  ∧ evaluate_models [] ∅ ∅ {| cmp_classes := ∅; cmp_relationships := ∅ |}
    = ([], [], {| cmp_classes := ∅; cmp_relationships := ∅ |})
  ∧ scores_of [] = []
  ∧ best_model (scores_of []) = Err ValueError.
Proof.
  split; [|split; [|split]].
  - unfold compare_models, unions, presence. simpl.
    by rewrite elements_empty.
  - done.
  - apply scores_of_empty.
  - apply best_model_empty.
Qed.

(** C8 as stated fails: the exception raised on the empty [scores] is not of
    a class named [NoModelsError]. *)
Lemma empty_registry_counterexample :
  ¬ signals "NoModelsError" (best_model (scores_of [])).
Proof.
  intros (e & He & Hcls). rewrite best_model_empty in He.
  injection He as <-. discriminate Hcls.
Qed.

(** ** The loader *)

Lemma load_relationships_loop_step (o : gmap string string)
    (l : list (gmap string string)) (acc : gset rel) :
  load_relationships_loop (o :: l) acc
  = match o !! "from", o !! "to", o !! "label" with
    | Some f, Some t, Some lb =>
        load_relationships_loop l (acc ∪ {[ (f, t, lb) ]})
    | None, _, _ => Err (KeyError "from")
    | Some _, None, _ => Err (KeyError "to")
    | Some _, Some _, None => Err (KeyError "label")
    end.
Proof.
  cbn [load_relationships_loop]. unfold getitem.
  by destruct (o !! "from"), (o !! "to"), (o !! "label").
Qed.

Lemma load_relationships_loop_first_error (pre post : list (gmap string string))
    (o : gmap string string) (k : string) (acc : gset rel) :
  (∀ p, p ∈ pre → ¬ malformed p) → first_missing o = Some k →
  load_relationships_loop (pre ++ o :: post) acc = Err (KeyError k).
Proof.
  intros Hpre Hk. revert acc. induction pre as [|p pre IH]; intros acc.
  - simpl app. rewrite load_relationships_loop_step.
    unfold first_missing in Hk.
    destruct (o !! "from"), (o !! "to"), (o !! "label"); congruence.
  - simpl app. rewrite load_relationships_loop_step.
    assert (¬ malformed p) as Hp by (apply Hpre; left).
    unfold malformed in Hp.
    destruct (p !! "from"); [|by destruct Hp; left].
    destruct (p !! "to"); [|by destruct Hp; right; left].
    destruct (p !! "label"); [|by destruct Hp; right; right].
    apply IH. intros p' Hp'. apply Hpre. by right.
Qed.

Lemma first_missing_None (o : gmap string string) :
  first_missing o = None ↔ ¬ malformed o.
Proof.
  unfold first_missing, malformed.
  destruct (o !! "from"), (o !! "to"), (o !! "label"); split; intros H;
    try discriminate H; try reflexivity;
    try (intros [?|[?|?]]; discriminate);
    try (exfalso; apply H; auto; fail).
Qed.

(** A list with an incomplete entry splits at its first incomplete entry. *)
Lemma first_malformed_split (l : list (gmap string string))
    (o : gmap string string) :
  o ∈ l → malformed o →
  ∃ pre o' post k, l = pre ++ o' :: post
    ∧ (∀ p, p ∈ pre → ¬ malformed p) ∧ first_missing o' = Some k.
Proof.
  intros Hin Hbad. induction l as [|o0 l IH]; [by apply elem_of_nil in Hin|].
  destruct (first_missing o0) as [k|] eqn:E0.
  - exists [], o0, l, k. split; [done|]. split; [|done].
    by intros p ?%elem_of_nil.
  - apply first_missing_None in E0.
    apply elem_of_cons in Hin as [->|Hin]; [done|].
    destruct (IH Hin) as (pre & o' & post & k & -> & Hpre & Hk).
    exists (o0 :: pre), o', post, k. split; [done|]. split; [|done].
    intros p [->|Hp]%elem_of_cons; [done | by apply Hpre].
Qed.

(** C7, as the code has it. A document without ["classes"] or without
    ["relationships"] loads with the empty set in its place. A relationship
    entry that lacks ["from"], ["to"] or ["label"] makes the load raise and
    return no model: the list splits at its first incomplete entry, and
    when the classes load the exception is the built-in [KeyError] of the
    first field that this entry lacks, in the order from, to, label; when
    the classes do not load, their exception comes first. *)
Theorem load_model_from_json_spec (data : gmap string jval) :
  (data !! "classes" = None → load_classes data = Ok ∅)
  ∧ (data !! "relationships" = None → load_relationships data = Ok ∅)
  ∧ (data !! "classes" = None → data !! "relationships" = None →
       load_model_from_json data = Ok {| classes := ∅; relationships := ∅ |})
  ∧ (∀ l o, data !! "relationships" = Some (JObjects l) → o ∈ l →
       malformed o →
       ∃ pre o' post k,
         l = pre ++ o' :: post
         ∧ (∀ p, p ∈ pre → ¬ malformed p)
         ∧ first_missing o' = Some k
         ∧ ∃ e, load_model_from_json data = Err e
             ∧ (∀ cs, load_classes data = Ok cs → e = KeyError k)
             ∧ (∀ e', load_classes data = Err e' → e = e')).
Proof.
  split; [|split; [|split]].
  - intros E. unfold load_classes. by rewrite E.
  - intros E. unfold load_relationships. by rewrite E.
  - intros Ec Er. unfold load_model_from_json, load_classes, load_relationships.
    by rewrite Ec, Er.
  - intros l o Er Hin Hbad.
    destruct (first_malformed_split l o Hin Hbad)
      as (pre & o' & post & k & -> & Hpre & Hk).
    exists pre, o', post, k. split; [done|]. split; [done|]. split; [done|].
    unfold load_model_from_json, load_relationships. rewrite Er. simpl.
    rewrite (load_relationships_loop_first_error pre post o' k ∅ Hpre Hk).
    destruct (load_classes data) as [cs|e] eqn:Ec; simpl.
    + exists (KeyError k). split; [done|]. split; [done|].
      intros e' He'. discriminate He'.
    + exists e. split; [done|]. split.
      * intros cs Hcs. discriminate Hcs.
      * by intros e' [= <-].
Qed.

(** The field named is the first one missing: an entry with only
    ["from"] raises for ["to"], not for ["label"]. *)
Example load_second_bad :
  load_model_from_json doc_second_bad = Err (KeyError "to").
Proof. by vm_compute. Qed.

(** C7 as stated fails: the exception raised for a relationship without a
    ["label"] is not of a class named [MalformedFactError]. *)
Lemma load_model_from_json_counterexample :
  load_model_from_json doc_missing_label = Err (KeyError "label")
  ∧ ¬ signals "MalformedFactError" (load_model_from_json doc_missing_label).
Proof.
  assert (load_model_from_json doc_missing_label = Err (KeyError "label"))
    as Hload by (by vm_compute).
  split; [done|]. intros (e & He & Hcls). rewrite Hload in He.
  injection He as <-. discriminate Hcls.
Qed.

(** * Further properties of the code *)

(** ** The loader, on documents that load *)

Lemma load_relationships_loop_Ok (l : list (gmap string string))
    (acc s : gset rel) :
  load_relationships_loop l acc = Ok s →
  (∀ o, o ∈ l → ¬ malformed o)
  ∧ ∀ f t lb, (f, t, lb) ∈ s
      ↔ (f, t, lb) ∈ acc
        ∨ ∃ o, o ∈ l ∧ o !! "from" = Some f ∧ o !! "to" = Some t
               ∧ o !! "label" = Some lb.
Proof.
  revert acc. induction l as [|o l IH]; intros acc.
  - intros [= <-]. split; [by intros o ?%elem_of_nil|].
    intros f t lb. split; [by left|].
    intros [?|(o & ?%elem_of_nil & _)]; done.
  - rewrite load_relationships_loop_step.
    destruct (o !! "from") as [f0|] eqn:Ef; [|done].
    destruct (o !! "to") as [t0|] eqn:Et; [|done].
    destruct (o !! "label") as [lb0|] eqn:El; [|done].
    intros [Hwf Hmem]%IH. split.
    + intros o' [->|Hin]%elem_of_cons; [|by apply Hwf].
      intros [?|[?|?]]; congruence.
    + intros f t lb. rewrite Hmem, elem_of_union, elem_of_singleton. split.
      * intros [[?|Heq]|(o' & Hin & ?)].
        -- by left.
        -- injection Heq as -> -> ->. right. exists o. split; [left|done].
        -- right. exists o'. split; [by right | done].
      * intros [?|(o' & [->|Hin]%elem_of_cons & Hf & Ht & Hl)].
        -- left. by left.
        -- left. right. congruence.
        -- right. by exists o'.
Qed.

Lemma load_relationships_loop_total (l : list (gmap string string))
    (acc : gset rel) :
  (∀ o, o ∈ l → ¬ malformed o) → ∃ s, load_relationships_loop l acc = Ok s.
Proof.
  revert acc. induction l as [|o l IH]; intros acc Hwf; [by exists acc|].
  rewrite load_relationships_loop_step.
  assert (¬ malformed o) as Ho by (apply Hwf; left).
  unfold malformed in Ho.
  destruct (o !! "from") as [f0|]; [|by destruct Ho; left].
  destruct (o !! "to") as [t0|]; [|by destruct Ho; right; left].
  destruct (o !! "label") as [lb0|]; [|by destruct Ho; right; right].
  apply IH. intros o' Ho'. apply Hwf. by right.
Qed.

Lemma load_model_from_json_inv (data : gmap string jval) (md : model_data) :
  load_model_from_json data = Ok md →
  load_classes data = Ok (classes md)
  ∧ load_relationships data = Ok (relationships md).
Proof.
  unfold load_model_from_json.
  destruct (load_classes data) as [cs|e]; [|done].
  destruct (load_relationships data) as [rs|e]; [|done].
  cbn. by intros [= <-].
Qed.

Lemma load_classes_Ok (data : gmap string jval) (cs : gset string) :
  load_classes data = Ok cs → ∀ c, c ∈ cs ↔ c ∈ doc_classes data.
Proof.
  unfold load_classes, doc_classes.
  destruct (data !! "classes") as [[l|[|o l]]|]; simpl; intros [= <-] c.
  - apply elem_of_list_to_set.
  - split; [by intros ?%not_elem_of_empty | by intros ?%elem_of_nil].
  - split; [by intros ?%not_elem_of_empty | by intros ?%elem_of_nil].
Qed.

Lemma load_relationships_Ok (data : gmap string jval) (rs : gset rel) :
  load_relationships data = Ok rs →
  (∀ o, o ∈ doc_relationships data → ¬ malformed o)
  ∧ ∀ f t lb, (f, t, lb) ∈ rs
      ↔ ∃ o, o ∈ doc_relationships data ∧ o !! "from" = Some f
             ∧ o !! "to" = Some t ∧ o !! "label" = Some lb.
Proof.
  unfold load_relationships, doc_relationships.
  destruct (data !! "relationships") as [[[|s l]|l]|]; simpl.
  - intros [= <-]. split; [by intros o ?%elem_of_nil|]. intros f t lb.
    split; [by intros ?%not_elem_of_empty | by intros (o & ?%elem_of_nil & _)].
  - done.
  - intros [Hwf Hmem]%load_relationships_loop_Ok. split; [done|].
    intros f t lb. rewrite Hmem. split; [|by right].
    intros [?%not_elem_of_empty|?]; done.
  - intros [= <-]. split; [by intros o ?%elem_of_nil|]. intros f t lb.
    split; [by intros ?%not_elem_of_empty | by intros (o & ?%elem_of_nil & _)].
Qed.

(** X1. A model that loads has exactly the classes listed by the document
    and exactly the triples of its relationship entries. *)
Theorem load_model_content (data : gmap string jval) (md : model_data) :
  load_model_from_json data = Ok md →
  (∀ c, c ∈ classes md ↔ c ∈ doc_classes data)
  ∧ (∀ f t lb, (f, t, lb) ∈ relationships md
       ↔ ∃ o, o ∈ doc_relationships data ∧ o !! "from" = Some f
              ∧ o !! "to" = Some t ∧ o !! "label" = Some lb).
Proof.
  intros [Hc Hr]%load_model_from_json_inv. split.
  - by apply load_classes_Ok.
  - by apply load_relationships_Ok.
Qed.

Lemma load_model_content_witness :
  load_model_from_json doc_dup
  = Ok {| classes := {["A"; "B"]}; relationships := {[ ("A", "B", "uses") ]} |}
  ∧ (∀ c, c ∈ ({["A"; "B"]} : gset string) ↔ c ∈ doc_classes doc_dup)
  ∧ (∀ f t lb, (f, t, lb) ∈ ({[ ("A", "B", "uses") ]} : gset rel)
       ↔ ∃ o, o ∈ doc_relationships doc_dup ∧ o !! "from" = Some f
              ∧ o !! "to" = Some t ∧ o !! "label" = Some lb).
Proof.
  assert (load_model_from_json doc_dup
          = Ok {| classes := {["A"; "B"]};
                  relationships := {[ ("A", "B", "uses") ]} |}) as Hload
    by (vm_compute; reflexivity).
  split; [exact Hload|].
  exact (load_model_content doc_dup _ Hload).
Defined.

Lemma load_model_succeeds (data : gmap string jval) :
  (∃ md, load_model_from_json data = Ok md)
  ↔ ¬ bad_classes data ∧ ¬ bad_relationships data.
Proof.
  split.
  - intros [md [Hc Hr]%load_model_from_json_inv]. split.
    + intros (o & l & E). unfold load_classes in Hc. by rewrite E in Hc.
    + intros [(s & l & E)|(o & Hin & Hbad)].
      * unfold load_relationships in Hr. by rewrite E in Hr.
      * apply load_relationships_Ok in Hr as [Hwf _]. by apply (Hwf o).
  - intros [Hc Hr]. unfold load_model_from_json.
    assert (∃ cs, load_classes data = Ok cs) as [cs ->].
    { unfold load_classes.
      destruct (data !! "classes") as [[l|[|o l]]|] eqn:E; simpl; eauto.
      destruct Hc. by exists o, l. }
    assert (∃ rs, load_relationships data = Ok rs) as [rs ->]; [|by eexists].
    unfold load_relationships.
    destruct (data !! "relationships") as [[[|s l]|l]|] eqn:E; simpl; eauto.
    + destruct Hr. left. by exists s, l.
    + apply load_relationships_loop_total. intros o Hin Hbad.
      apply Hr. right. exists o. unfold doc_relationships. by rewrite E.
Qed.

(** X2. For a document in the input format ([classes], when present, a
    list of strings; [relationships], when present, a list of objects with
    string values), the loader returns a model exactly when every
    relationship entry has its three fields. *)
Theorem load_model_succeeds_iff (data : gmap string jval) :
  in_format data →
  (∃ md, load_model_from_json data = Ok md)
  ↔ ∀ o, o ∈ doc_relationships data → ¬ malformed o.
Proof.
  intros [Hc Hr]. rewrite load_model_succeeds. split.
  - intros [_ Hbad] o Hin Ho. apply Hbad. right. by exists o.
  - intros Hall. split; [done|]. intros [?|(o & Hin & Ho)]; [done|].
    by apply (Hall o).
Qed.

Lemma load_model_succeeds_iff_witness :
  in_format doc_dup
  ∧ ((∃ md, load_model_from_json doc_dup = Ok md)
     ↔ ∀ o, o ∈ doc_relationships doc_dup → ¬ malformed o).
Proof.
  assert (in_format doc_dup) as Hf.
  { split.
    - intros (o & l & H). vm_compute in H. discriminate H.
    - intros (s & l & H). vm_compute in H. discriminate H. }
  split; [exact Hf|].
  exact (load_model_succeeds_iff doc_dup Hf).
Defined.

(** X3. The exception of a load names the first missing field of the first
    incomplete relationship entry: the entries before it are read, the
    fields are read in the order from, to, label, and what follows is not
    looked at. *)
Theorem load_first_error (data : gmap string jval)
    (pre post : list (gmap string string)) (o : gmap string string)
    (k : string) :
  doc_relationships data = pre ++ o :: post →
  (∀ p, p ∈ pre → ¬ malformed p) →
  first_missing o = Some k →
  ¬ bad_classes data →
  load_model_from_json data = Err (KeyError k).
Proof.
  intros Hdoc Hpre Hk Hc. unfold load_model_from_json.
  assert (∃ cs, load_classes data = Ok cs) as [cs ->].
  { unfold load_classes.
    destruct (data !! "classes") as [[l|[|o' l]]|] eqn:E; simpl; eauto.
    destruct Hc. by exists o', l. }
  cbn [mbind result_bind]. unfold load_relationships.
  unfold doc_relationships in Hdoc.
  destruct (data !! "relationships") as [[l|l]|]; simpl in *;
    try (by destruct pre).
  subst l. by rewrite (load_relationships_loop_first_error pre post o k).
Qed.

Lemma load_first_error_witness :
  doc_relationships doc_second_bad = [entry_AB] ++ entry_from_only :: []
  ∧ (∀ p, p ∈ [entry_AB] → ¬ malformed p)
  ∧ first_missing entry_from_only = Some "to"
  ∧ ¬ bad_classes doc_second_bad
  ∧ load_model_from_json doc_second_bad = Err (KeyError "to").
Proof.
  assert (doc_relationships doc_second_bad
          = [entry_AB] ++ entry_from_only :: []) as Hdoc by reflexivity.
  assert (∀ p, p ∈ [entry_AB] → ¬ malformed p) as Hpre.
  { intros p ->%list_elem_of_singleton [H|[H|H]]; vm_compute in H;
      discriminate H. }
  assert (first_missing entry_from_only = Some "to") as Hk by reflexivity.
  assert (¬ bad_classes doc_second_bad) as Hc.
  { intros (o & l & H). vm_compute in H. discriminate H. }
  split; [exact Hdoc|]. split; [exact Hpre|]. split; [exact Hk|].
  split; [exact Hc|].
  exact (load_first_error doc_second_bad [entry_AB] [] entry_from_only "to"
           Hdoc Hpre Hk Hc).
Defined.

(** X4. Order and repetition in a document do not matter: two documents
    that load and list the same classes and the same relationship entries
    load to the same model. *)
Theorem load_same_entries (data data' : gmap string jval)
    (md md' : model_data) :
  load_model_from_json data = Ok md →
  load_model_from_json data' = Ok md' →
  (∀ c, c ∈ doc_classes data ↔ c ∈ doc_classes data') →
  (∀ o, o ∈ doc_relationships data ↔ o ∈ doc_relationships data') →
  md = md'.
Proof.
  intros [Hc Hr]%load_model_from_json_inv [Hc' Hr']%load_model_from_json_inv
    Hcs Hrs.
  pose proof (load_classes_Ok _ _ Hc) as Ec.
  pose proof (load_classes_Ok _ _ Hc') as Ec'.
  apply load_relationships_Ok in Hr as [_ Er].
  apply load_relationships_Ok in Hr' as [_ Er'].
  destruct md as [cs rs], md' as [cs' rs']. simpl in *. f_equal.
  - apply set_eq. intros c. by rewrite Ec, Ec', Hcs.
  - apply set_eq. intros [[f t] lb]. rewrite Er, Er'.
    split; intros (o & Hin & ?); exists o; (split; [by apply Hrs | done]).
Qed.

Lemma load_same_entries_witness :
  ∃ md md',
    load_model_from_json doc_dup = Ok md
    ∧ load_model_from_json doc_once = Ok md'
    ∧ (∀ c, c ∈ doc_classes doc_dup ↔ c ∈ doc_classes doc_once)
    ∧ (∀ o, o ∈ doc_relationships doc_dup ↔ o ∈ doc_relationships doc_once)
    ∧ md = md'.
Proof.
  destruct (load_model_from_json doc_dup) as [md|e] eqn:H1;
    [|vm_compute in H1; discriminate H1].
  destruct (load_model_from_json doc_once) as [md'|e] eqn:H2;
    [|vm_compute in H2; discriminate H2].
  assert (∀ c, c ∈ doc_classes doc_dup ↔ c ∈ doc_classes doc_once) as Hcs.
  { intros c. change (c ∈ ["A"; "B"; "A"] ↔ c ∈ ["B"; "A"]).
    rewrite !elem_of_cons. rewrite elem_of_nil. tauto. }
  assert (∀ o, o ∈ doc_relationships doc_dup ↔ o ∈ doc_relationships doc_once)
    as Hrs.
  { intros o. change (o ∈ [entry_AB; entry_AB] ↔ o ∈ [entry_AB]).
    rewrite !elem_of_cons. rewrite elem_of_nil. tauto. }
  exists md, md'. split; [reflexivity|]. split; [reflexivity|].
  split; [exact Hcs|]. split; [exact Hrs|].
  exact (load_same_entries doc_dup doc_once md md' H1 H2 Hcs Hrs).
Defined.

(** ** The reconciler: unions and presence lists *)

(** X5. [all_classes] holds exactly the classes of the models of the
    registry, and [all_relationships] exactly their relationships. *)
Theorem unions_are_unions (models : registry) :
  (∀ c, c ∈ all_classes_of models
        ↔ ∃ name md, (name, md) ∈ models ∧ c ∈ classes md)
  ∧ (∀ r, r ∈ all_relationships_of models
          ↔ ∃ name md, (name, md) ∈ models ∧ r ∈ relationships md).
Proof.
  split.
  - intros c. rewrite all_classes_of_eq, (elem_of_all_facts classes). split.
    + intros ([n md] & ? & ?). by exists n, md.
    + intros (n & md & ? & ?). by exists (n, md).
  - intros r.
    rewrite all_relationships_of_eq, (elem_of_all_facts relationships). split.
    + intros ([n md] & ? & ?). by exists n, md.
    + intros (n & md & ? & ?). by exists (n, md).
Qed.

Lemma holders_sublist {K} `{Countable K} (facts : model_data → gset K)
    (k : K) (models : registry) :
  holders facts k models `sublist_of` Dict.keys models.
Proof. unfold holders, Dict.keys. apply fmap_sublist, sublist_filter. Qed.

(** X6. With unique model names, the presence list of a class names exactly
    the models that contain the class, each once and in the order of the
    registry; likewise for a relationship. *)
Theorem presence_lists_in_registry_order (models : registry) :
  Dict.wf models →
  (∀ c l, cmp_classes (comparison_of models) !! c = Some l →
     l `sublist_of` Dict.keys models ∧ NoDup l
     ∧ ∀ name, name ∈ l ↔ ∃ md, (name, md) ∈ models ∧ c ∈ classes md)
  ∧ (∀ r l, cmp_relationships (comparison_of models) !! r = Some l →
       l `sublist_of` Dict.keys models ∧ NoDup l
       ∧ ∀ name, name ∈ l ↔ ∃ md, (name, md) ∈ models ∧ r ∈ relationships md).
Proof.
  intros Hwf. split.
  - intros c l. rewrite cmp_classes_lookup.
    destruct (decide (holders classes c models ≠ [])); [|done].
    intros [= <-]. split; [apply holders_sublist|].
    split; [by apply holders_NoDup|]. intros name. apply elem_of_holders.
  - intros r l. rewrite cmp_relationships_lookup.
    destruct (decide (holders relationships r models ≠ [])); [|done].
    intros [= <-]. split; [apply holders_sublist|].
    split; [by apply holders_NoDup|]. intros name. apply elem_of_holders.
Qed.

Lemma presence_lists_in_registry_order_witness :
  Dict.wf registry_AB
  ∧ (∀ c l, cmp_classes (comparison_of registry_AB) !! c = Some l →
       l `sublist_of` Dict.keys registry_AB ∧ NoDup l
       ∧ ∀ name, name ∈ l
           ↔ ∃ md, (name, md) ∈ registry_AB ∧ c ∈ classes md)
  ∧ (∀ r l, cmp_relationships (comparison_of registry_AB) !! r = Some l →
       l `sublist_of` Dict.keys registry_AB ∧ NoDup l
       ∧ ∀ name, name ∈ l
           ↔ ∃ md, (name, md) ∈ registry_AB ∧ r ∈ relationships md).
Proof.
  assert (Dict.wf registry_AB) as Hwf by dict_wf.
  split; [exact Hwf|].
  exact (presence_lists_in_registry_order registry_AB Hwf).
Defined.

(** ** The order of the registry *)

Lemma holders_length_Permutation {K} `{Countable K}
    (facts : model_data → gset K) (k : K) (models models' : registry) :
  models ≡ₚ models' →
  length (holders facts k models) = length (holders facts k models').
Proof.
  intros Hp. unfold holders. rewrite !length_fmap.
  apply Permutation_length. by rewrite Hp.
Qed.

Lemma run_metrics_Permutation (models models' : registry) (md : model_data) :
  models ≡ₚ models' → run_metrics models md = run_metrics models' md.
Proof.
  intros Hp. unfold run_metrics, metrics_of.
  assert (all_classes_of models = all_classes_of models') as ->.
  { apply set_eq. intros c.
    rewrite !all_classes_of_eq, !(elem_of_all_facts classes).
    by setoid_rewrite Hp. }
  assert (all_relationships_of models = all_relationships_of models') as ->.
  { apply set_eq. intros r.
    rewrite !all_relationships_of_eq, !(elem_of_all_facts relationships).
    by setoid_rewrite Hp. }
  assert (corroborated (cmp_classes (comparison_of models)) (classes md)
          = corroborated (cmp_classes (comparison_of models')) (classes md))
    as ->.
  { apply set_eq. intros c. unfold corroborated.
    rewrite !elem_of_filter, !plen_classes.
    by rewrite (holders_length_Permutation classes c models models'). }
  assert (corroborated (cmp_relationships (comparison_of models))
            (relationships md)
          = corroborated (cmp_relationships (comparison_of models'))
              (relationships md)) as ->.
  { apply set_eq. intros r. unfold corroborated.
    rewrite !elem_of_filter, !plen_relationships.
    by rewrite (holders_length_Permutation relationships r models models'). }
  done.
Qed.

(** X7. The order of the registry does not change what a model scores: in
    any reordering of a registry with unique names, each model has the same
    metrics record and the same score. *)
Theorem metrics_order_independent (models models' : registry)
    (name : string) (md : model_data) :
  Dict.wf models → models ≡ₚ models' → (name, md) ∈ models →
  ∃ rec, Dict.get (metrics_dict_of models) name = Some rec
    ∧ Dict.get (metrics_dict_of models') name = Some rec
    ∧ Dict.get (scores_of models) name = Some (total_score rec)
    ∧ Dict.get (scores_of models') name = Some (total_score rec).
Proof.
  intros Hwf Hp Hin.
  assert (Dict.wf models') as Hwf'.
  { unfold Dict.wf, Dict.keys in *. by rewrite <- Hp. }
  assert ((name, md) ∈ models') as Hin' by (by rewrite <- Hp).
  exists (run_metrics models md).
  split; [by apply run_metrics_get|].
  split; [rewrite (run_metrics_Permutation models models' md Hp);
          by apply run_metrics_get|].
  split; [by apply run_scores_get|].
  rewrite (run_metrics_Permutation models models' md Hp).
  by apply run_scores_get.
Qed.

Lemma metrics_order_independent_witness :
  Dict.wf registry_AB ∧ registry_AB ≡ₚ registry_BA
  ∧ ("A", model_A) ∈ registry_AB
  ∧ ∃ rec, Dict.get (metrics_dict_of registry_AB) "A" = Some rec
      ∧ Dict.get (metrics_dict_of registry_BA) "A" = Some rec
      ∧ Dict.get (scores_of registry_AB) "A" = Some (total_score rec)
      ∧ Dict.get (scores_of registry_BA) "A" = Some (total_score rec).
Proof.
  assert (Dict.wf registry_AB) as Hwf by dict_wf.
  assert (registry_AB ≡ₚ registry_BA) as Hp by apply perm_swap.
  assert (("A", model_A) ∈ registry_AB) as Hin by left.
  split; [exact Hwf|]. split; [exact Hp|]. split; [exact Hin|].
  exact (metrics_order_independent registry_AB registry_BA "A" model_A
           Hwf Hp Hin).
Defined.

(** The best model does depend on the order when scores tie. *)
Example best_model_BA : best_model (scores_of registry_BA) = Ok "B".
Proof. by vm_compute. Qed.

(** ** The scorer on arbitrary arguments *)

(** X8. Given a registry with unique names and any unions and comparison,
    the scorer never raises; [scores] and [metrics] list the names of the
    registry in its order, and each model gets [metrics_of] on the
    comparison passed in, a fact without a presence list counting as not
    corroborated. *)
Theorem evaluate_models_any_arguments (models : registry)
    (ac : gset string) (ar : gset rel) (cmp : comparison) :
  Dict.wf models →
  Dict.keys (evaluate_models models ac ar cmp).1.1 = Dict.keys models
  ∧ Dict.keys (evaluate_models models ac ar cmp).1.2 = Dict.keys models
  ∧ ∀ name md, (name, md) ∈ models →
      Dict.get (evaluate_models models ac ar cmp).1.2 name
      = Some (metrics_of ac ar cmp md)
      ∧ Dict.get (evaluate_models models ac ar cmp).1.1 name
        = Some (total_score (metrics_of ac ar cmp md)).
Proof.
  intros Hwf.
  destruct (evaluate_models_spec models ac ar cmp Hwf) as (H1 & H2 & _).
  cbv zeta in H1, H2. rewrite H1, H2.
  split; [apply (dict_keys_fmap (λ e, total_score (metrics_of ac ar cmp e.2)))|].
  split; [apply (dict_keys_fmap (λ e, metrics_of ac ar cmp e.2))|].
  intros name md Hin. split.
  - apply dict_get_elem_of.
    + by apply (dict_wf_fmap (λ e, metrics_of ac ar cmp e.2)).
    + apply list_elem_of_fmap. by exists (name, md).
  - apply dict_get_elem_of.
    + by apply (dict_wf_fmap (λ e, total_score (metrics_of ac ar cmp e.2))).
    + apply list_elem_of_fmap. by exists (name, md).
Qed.

Lemma evaluate_models_any_arguments_witness :
  Dict.wf registry_AB
  ∧ Dict.keys (evaluate_models registry_AB ∅ ∅ (Comparison ∅ ∅)).1.1
    = Dict.keys registry_AB
  ∧ Dict.keys (evaluate_models registry_AB ∅ ∅ (Comparison ∅ ∅)).1.2
    = Dict.keys registry_AB
  ∧ ∀ name md, (name, md) ∈ registry_AB →
      Dict.get (evaluate_models registry_AB ∅ ∅ (Comparison ∅ ∅)).1.2 name
      = Some (metrics_of ∅ ∅ (Comparison ∅ ∅) md)
      ∧ Dict.get (evaluate_models registry_AB ∅ ∅ (Comparison ∅ ∅)).1.1 name
        = Some (total_score (metrics_of ∅ ∅ (Comparison ∅ ∅) md)).
Proof.
  assert (Dict.wf registry_AB) as Hwf by dict_wf.
  split; [exact Hwf|].
  exact (evaluate_models_any_arguments registry_AB ∅ ∅ (Comparison ∅ ∅) Hwf).
Defined.

(** ** What the scorer's reads do to the comparison *)

Section reads.
Context {K : Type} `{Countable K}.
Implicit Types (d : gmap K (list string)) (k : K).

Lemma dd_getitem_lookup d k k' :
  (dd_getitem d k).2 !! k'
  = match d !! k' with
    | Some l => Some l
    | None => if decide (k' = k) then Some [] else None
    end.
Proof.
  unfold dd_getitem. destruct (d !! k) as [v|] eqn:E; simpl.
  - destruct (d !! k') eqn:E'; [done|].
    rewrite decide_False; [done|]. intros ->. congruence.
  - destruct (decide (k' = k)) as [->|Hne].
    + by rewrite lookup_insert_eq, E.
    + rewrite lookup_insert_ne by done. by destruct (d !! k').
Qed.

Lemma overlap_fold_lookup (l : list K) (acc : list nat) d k' :
  (foldl overlap_step (acc, d) l).2 !! k'
  = match d !! k' with
    | Some v => Some v
    | None => if decide (k' ∈ l) then Some [] else None
    end.
Proof.
  revert acc d. induction l as [|k l IH]; intros acc d; cbn [foldl].
  - simpl. by destruct (d !! k').
  - assert (∃ acc', overlap_step (acc, d) k = (acc', (dd_getitem d k).2))
      as [acc' ->].
    { unfold overlap_step. simpl. destruct (dd_getitem d k). by eexists. }
    rewrite IH, dd_getitem_lookup.
    destruct (d !! k') as [v|]; [done|].
    destruct (decide (k' = k)) as [->|Hne].
    + rewrite decide_True; [done | left].
    + destruct (decide (k' ∈ l)).
      * rewrite decide_True; [done | by right].
      * rewrite decide_False; [done|].
        by intros [?|?]%elem_of_cons.
Qed.

Lemma overlap_ones_lookup (fs : gset K) d k' :
  (overlap_ones fs d).2 !! k'
  = match d !! k' with
    | Some v => Some v
    | None => if decide (k' ∈ fs) then Some [] else None
    end.
Proof.
  unfold overlap_ones. rewrite overlap_fold_lookup.
  destruct (d !! k'); [done|].
  destruct (decide (k' ∈ fs)).
  - rewrite decide_True; [done | by apply elem_of_elements].
  - rewrite decide_False; [done | by intros ?%elem_of_elements].
Qed.
End reads.

Lemma evaluate_step_comparison ac ar s m c entry :
  (evaluate_step ac ar (s, m, c) entry).2
  = {| cmp_classes := (overlap_ones (classes entry.2) (cmp_classes c)).2;
       cmp_relationships :=
         (overlap_ones (relationships entry.2) (cmp_relationships c)).2 |}.
Proof.
  destruct entry as [name md]. unfold evaluate_step. simpl.
  destruct (overlap_ones (classes md) (cmp_classes c)).
  by destruct (overlap_ones (relationships md) (cmp_relationships c)).
Qed.

Lemma evaluate_fold_comparison ac ar models s m c :
  (∀ k, cmp_classes (foldl (evaluate_step ac ar) (s, m, c) models).2 !! k
        = match cmp_classes c !! k with
          | Some v => Some v
          | None => if decide (k ∈ ⋃ (classes <$> models.*2))
                    then Some [] else None
          end)
  ∧ (∀ r, cmp_relationships
            (foldl (evaluate_step ac ar) (s, m, c) models).2 !! r
          = match cmp_relationships c !! r with
            | Some v => Some v
            | None => if decide (r ∈ ⋃ (relationships <$> models.*2))
                      then Some [] else None
            end).
Proof.
  revert s m c. induction models as [|entry models IH]; intros s m c;
    cbn [foldl].
  - split; intros k; simpl.
    + by destruct (cmp_classes c !! k).
    + by destruct (cmp_relationships c !! k).
  - pose proof (evaluate_step_comparison ac ar s m c entry) as Hc.
    destruct (evaluate_step ac ar (s, m, c) entry) as [[s1 m1] c1].
    simpl in Hc. destruct (IH s1 m1 c1) as [IHc IHr]. subst c1.
    split; intros k.
    + rewrite IHc. simpl. rewrite overlap_ones_lookup.
      destruct (cmp_classes c !! k); [done|].
      destruct (decide (k ∈ classes entry.2)).
      * rewrite decide_True; [done | set_solver].
      * destruct (decide (k ∈ ⋃ (classes <$> models.*2))).
        -- rewrite decide_True; [done | set_solver].
        -- rewrite decide_False; [done | set_solver].
    + rewrite IHr. simpl. rewrite overlap_ones_lookup.
      destruct (cmp_relationships c !! k); [done|].
      destruct (decide (k ∈ relationships entry.2)).
      * rewrite decide_True; [done | set_solver].
      * destruct (decide (k ∈ ⋃ (relationships <$> models.*2))).
        -- rewrite decide_True; [done | set_solver].
        -- rewrite decide_False; [done | set_solver].
Qed.

(** X9. The scorer changes the comparison it is given only by storing an
    empty presence list under every fact of a model that the comparison
    does not list; the lists already there are kept. *)
Theorem evaluate_models_stores_missing (models : registry)
    (ac : gset string) (ar : gset rel) (cmp : comparison) :
  (∀ c, cmp_classes (evaluate_models models ac ar cmp).2 !! c
        = match cmp_classes cmp !! c with
          | Some l => Some l
          | None => if decide (c ∈ ⋃ (classes <$> models.*2))
                    then Some [] else None
          end)
  ∧ (∀ r, cmp_relationships (evaluate_models models ac ar cmp).2 !! r
          = match cmp_relationships cmp !! r with
            | Some l => Some l
            | None => if decide (r ∈ ⋃ (relationships <$> models.*2))
                      then Some [] else None
            end).
Proof. apply evaluate_fold_comparison. Qed.

(** X10. In a run the scorer finds every fact it reads in the comparison
    of the reconciler and leaves that comparison as it was. *)
Theorem run_keeps_comparison (models : registry) :
  (run models).2 = comparison_of models.
Proof.
  rewrite run_eq. unfold evaluate_models.
  destruct (evaluate_models_acc (all_classes_of models)
              (all_relationships_of models) (comparison_of models) models
              [] [] (comparison_of models) (cmp_equiv_refl _))
    as (_ & _ & _ & H4).
  apply H4. intros e He. by apply covered_comparison_of.
Qed.

(** ** More arithmetic of the ratios *)

Ltac ratio_cases :=
  unfold ratio, py_div; repeat case_decide; unfold Qle, Qeq, Qlt; simpl;
  rewrite ?Zpos_of_nat by lia; try lia; try nia.

Lemma ratio_eq_0 (a b : nat) : (ratio a b == 0)%Q ↔ a = 0 ∨ b = 0.
Proof. ratio_cases. Qed.

Lemma ratio_antitone (a b b' : nat) :
  a ≤ b → b ≤ b' → (ratio a b' <= ratio a b)%Q.
Proof. intros Hab Hbb. ratio_cases. Qed.

Lemma ratio_mediant (a b c d : nat) :
  (ratio a b <= ratio c d)%Q → a ≤ b → c ≤ d →
  (ratio a b <= ratio (a + c) (b + d) <= ratio c d)%Q.
Proof.
  intros Hle Hab Hcd. split; revert Hle; ratio_cases.
Qed.

(** ** The metrics of a registered model *)

Lemma size_zero_iff {A} `{Countable A} (X : gset A) : size X = 0 ↔ X = ∅.
Proof.
  split; [by intros ?%size_empty_inv%leibniz_equiv | intros ->; apply size_empty].
Qed.

(** X11. The relationship metrics mirror the class metrics: for a model of
    a registry, [recall_relationships] is the share of all relationships
    that the model has, [precision_relationships] the share of its
    relationships listed by more than one model, [overlap_score] the share
    of its classes and relationships together listed by more than one
    model, each 0 on an empty denominator; and a relationship of the model
    is so listed exactly when a model of another name has it. *)
Theorem relationship_metrics_spec (models : registry) (name : string)
    (md : model_data) :
  Dict.wf models → (name, md) ∈ models →
  ∃ rec, Dict.get (metrics_dict_of models) name = Some rec
    ∧ recall_relationships rec
      = (if decide (all_relationships_of models = ∅) then 0%Q
         else py_div (size (relationships md))
                     (size (all_relationships_of models)))
    ∧ precision_relationships rec
      = (if decide (relationships md = ∅) then 0%Q
         else py_div
                (size (corroborated (cmp_relationships (comparison_of models))
                         (relationships md)))
                (size (relationships md)))
    ∧ overlap_score rec
      = (if decide (classes md = ∅ ∧ relationships md = ∅) then 0%Q
         else py_div
                (size (corroborated (cmp_classes (comparison_of models))
                         (classes md))
                 + size (corroborated
                           (cmp_relationships (comparison_of models))
                           (relationships md)))
                (size (classes md) + size (relationships md)))
    ∧ ∀ r, r ∈ relationships md →
        r ∈ corroborated (cmp_relationships (comparison_of models))
              (relationships md)
        ↔ ∃ name' md', name' ≠ name ∧ (name', md') ∈ models
                       ∧ r ∈ relationships md'.
Proof.
  intros Hwf Hin. exists (run_metrics models md).
  split; [by apply run_metrics_get|].
  unfold run_metrics, metrics_of, ratio.
  cbn [recall_relationships precision_relationships overlap_score].
  split; [|split; [|split]].
  - destruct (decide (all_relationships_of models = ∅)) as [->|Hne].
    + by rewrite size_empty.
    + rewrite decide_False; [done | by rewrite size_zero_iff].
  - destruct (decide (relationships md = ∅)) as [->|Hne].
    + by rewrite size_empty.
    + rewrite decide_False; [done | by rewrite size_zero_iff].
  - destruct (decide (classes md = ∅ ∧ relationships md = ∅)) as [[-> ->]|Hne].
    + by rewrite !size_empty.
    + rewrite decide_False; [done|]. intros Hz. apply Hne.
      rewrite <- !size_zero_iff. lia.
  - intros r Hr. unfold corroborated.
    rewrite elem_of_filter, plen_relationships.
    rewrite <- (holders_other relationships r name md models Hwf Hin Hr).
    tauto.
Qed.

Lemma relationship_metrics_spec_witness :
  Dict.wf registry_AB ∧ ("A", model_A) ∈ registry_AB
  ∧ ∃ rec, Dict.get (metrics_dict_of registry_AB) "A" = Some rec
    ∧ recall_relationships rec
      = (if decide (all_relationships_of registry_AB = ∅) then 0%Q
         else py_div (size (relationships model_A))
                     (size (all_relationships_of registry_AB)))
    ∧ precision_relationships rec
      = (if decide (relationships model_A = ∅) then 0%Q
         else py_div
                (size (corroborated
                         (cmp_relationships (comparison_of registry_AB))
                         (relationships model_A)))
                (size (relationships model_A)))
    ∧ overlap_score rec
      = (if decide (classes model_A = ∅ ∧ relationships model_A = ∅) then 0%Q
         else py_div
                (size (corroborated (cmp_classes (comparison_of registry_AB))
                         (classes model_A))
                 + size (corroborated
                           (cmp_relationships (comparison_of registry_AB))
                           (relationships model_A)))
                (size (classes model_A) + size (relationships model_A)))
    ∧ ∀ r, r ∈ relationships model_A →
        r ∈ corroborated (cmp_relationships (comparison_of registry_AB))
              (relationships model_A)
        ↔ ∃ name' md', name' ≠ "A" ∧ (name', md') ∈ registry_AB
                       ∧ r ∈ relationships md'.
Proof.
  assert (Dict.wf registry_AB) as Hwf by dict_wf.
  assert (("A", model_A) ∈ registry_AB) as Hin by left.
  split; [exact Hwf|]. split; [exact Hin|].
  exact (relationship_metrics_spec registry_AB "A" model_A Hwf Hin).
Defined.

(** X12. [recall_relationships] of a registered model lies in [0,1] and is
    1 exactly when the model has every relationship of the registry and
    there is at least one. *)
Theorem recall_relationships_range (models : registry) (name : string)
    (md : model_data) :
  Dict.wf models → (name, md) ∈ models →
  ∃ rec, Dict.get (metrics_dict_of models) name = Some rec
    ∧ (0 <= recall_relationships rec <= 1)%Q
    ∧ ((recall_relationships rec == 1)%Q
       ↔ relationships md = all_relationships_of models
         ∧ all_relationships_of models ≠ ∅).
Proof.
  intros Hwf Hin. exists (run_metrics models md).
  split; [by apply run_metrics_get|].
  pose proof (relationships_subseteq_all models name md Hin) as Hsub.
  unfold run_metrics, metrics_of. cbn [recall_relationships].
  split; [split|].
  - apply ratio_nonneg.
  - by apply ratio_le_1, subseteq_size.
  - rewrite ratio_eq_1. split.
    + intros [Hsz Hnz]. split.
      * assert (size (all_relationships_of models) ≤ size (relationships md))
          as Hle by lia.
        exact (set_subseteq_size_eq _ _ Hsub Hle).
      * intros E. rewrite E, size_empty in Hnz. done.
    + intros [-> Hne]. split; [done | by rewrite size_zero_iff].
Qed.

Lemma recall_relationships_range_witness :
  Dict.wf registry_AB ∧ ("A", model_A) ∈ registry_AB
  ∧ ∃ rec, Dict.get (metrics_dict_of registry_AB) "A" = Some rec
    ∧ (0 <= recall_relationships rec <= 1)%Q
    ∧ ((recall_relationships rec == 1)%Q
       ↔ relationships model_A = all_relationships_of registry_AB
         ∧ all_relationships_of registry_AB ≠ ∅).
Proof.
  assert (Dict.wf registry_AB) as Hwf by dict_wf.
  assert (("A", model_A) ∈ registry_AB) as Hin by left.
  split; [exact Hwf|]. split; [exact Hin|].
  exact (recall_relationships_range registry_AB "A" model_A Hwf Hin).
Defined.

(** X13. [overlap_score] lies between the two precisions, and equals the
    precision of the classes for a model without relationships and that of
    the relationships for a model without classes. *)
Theorem overlap_between_precisions (models : registry) (name : string)
    (md : model_data) :
  Dict.wf models → (name, md) ∈ models →
  ∃ rec, Dict.get (metrics_dict_of models) name = Some rec
    ∧ ((precision_classes rec <= precision_relationships rec)%Q →
       (precision_classes rec <= overlap_score rec)%Q
       ∧ (overlap_score rec <= precision_relationships rec)%Q)
    ∧ ((precision_relationships rec <= precision_classes rec)%Q →
       (precision_relationships rec <= overlap_score rec)%Q
       ∧ (overlap_score rec <= precision_classes rec)%Q)
    ∧ (relationships md = ∅ →
       (overlap_score rec == precision_classes rec)%Q)
    ∧ (classes md = ∅ →
       (overlap_score rec == precision_relationships rec)%Q).
Proof.
  intros Hwf Hin. exists (run_metrics models md).
  split; [by apply run_metrics_get|].
  pose proof (size_corroborated_le (cmp_classes (comparison_of models))
                (classes md)) as Hcc.
  pose proof (size_corroborated_le (cmp_relationships (comparison_of models))
                (relationships md)) as Hcr.
  unfold run_metrics, metrics_of.
  cbn [precision_classes precision_relationships overlap_score].
  split; [|split; [|split]].
  - intros Hle. by apply ratio_mediant.
  - intros Hle.
    rewrite (Nat.add_comm (size (corroborated (cmp_classes _) _))).
    rewrite (Nat.add_comm (size (classes md))).
    by apply ratio_mediant.
  - intros E. rewrite E in *. rewrite size_empty in *.
    assert (size (corroborated (cmp_relationships (comparison_of models)) ∅)
            = 0) as -> by lia.
    rewrite !Nat.add_0_r. apply Qeq_refl.
  - intros E. rewrite E in *. rewrite size_empty in *.
    assert (size (corroborated (cmp_classes (comparison_of models)) ∅) = 0)
      as -> by lia.
    apply Qeq_refl.
Qed.

Lemma overlap_between_precisions_witness :
  Dict.wf registry_AB ∧ ("A", model_A) ∈ registry_AB
  ∧ ∃ rec, Dict.get (metrics_dict_of registry_AB) "A" = Some rec
    ∧ ((precision_classes rec <= precision_relationships rec)%Q →
       (precision_classes rec <= overlap_score rec)%Q
       ∧ (overlap_score rec <= precision_relationships rec)%Q)
    ∧ ((precision_relationships rec <= precision_classes rec)%Q →
       (precision_relationships rec <= overlap_score rec)%Q
       ∧ (overlap_score rec <= precision_classes rec)%Q)
    ∧ (relationships model_A = ∅ →
       (overlap_score rec == precision_classes rec)%Q)
    ∧ (classes model_A = ∅ →
       (overlap_score rec == precision_relationships rec)%Q).
Proof.
  assert (Dict.wf registry_AB) as Hwf by dict_wf.
  assert (("A", model_A) ∈ registry_AB) as Hin by left.
  split; [exact Hwf|]. split; [exact Hin|].
  exact (overlap_between_precisions registry_AB "A" model_A Hwf Hin).
Defined.

(** X14. A registered model scores 0 exactly when it has neither classes
    nor relationships. *)
Theorem zero_score_iff_no_facts (models : registry) (name : string)
    (md : model_data) :
  Dict.wf models → (name, md) ∈ models →
  ∃ v, Dict.get (scores_of models) name = Some v
    ∧ ((v == 0)%Q ↔ classes md = ∅ ∧ relationships md = ∅).
Proof.
  intros Hwf Hin. exists (total_score (run_metrics models md)).
  split; [by apply run_scores_get|].
  pose proof (subseteq_size _ _ (classes_subseteq_all models name md Hin))
    as Hc.
  pose proof (subseteq_size _ _
                (relationships_subseteq_all models name md Hin)) as Hr.
  pose proof (size_corroborated_le (cmp_classes (comparison_of models))
                (classes md)) as Hcc.
  pose proof (size_corroborated_le (cmp_relationships (comparison_of models))
                (relationships md)) as Hcr.
  unfold run_metrics, metrics_of. cbn [total_score].
  set (cc := size (corroborated (cmp_classes _) _)) in *.
  set (cr := size (corroborated (cmp_relationships _) _)) in *.
  set (nc := size (classes md)) in *.
  set (nr := size (relationships md)) in *.
  pose proof (ratio_nonneg nc (size (all_classes_of models))) as P1.
  pose proof (ratio_nonneg cc nc) as P2.
  pose proof (ratio_nonneg nr (size (all_relationships_of models))) as P3.
  pose proof (ratio_nonneg cr nr) as P4.
  pose proof (ratio_nonneg (cc + cr) (nc + nr)) as P5.
  rewrite <- !size_zero_iff. fold nc nr. split.
  - intros Hz. unfold weighted in Hz.
    assert (ratio nc (size (all_classes_of models)) == 0)%Q as Z1 by lra.
    assert (ratio nr (size (all_relationships_of models)) == 0)%Q as Z3
      by lra.
    apply ratio_eq_0 in Z1, Z3. lia.
  - intros [Hnc Hnr]. rewrite Hnc, Hnr in *.
    assert (cc = 0) as -> by lia. assert (cr = 0) as -> by lia.
    unfold weighted.
    pose proof (ratio_zero_num (size (all_classes_of models))) as Z1.
    pose proof (ratio_zero_num (size (all_relationships_of models))) as Z3.
    change (ratio 0 0) with 0%Q. change (ratio (0 + 0) (0 + 0)) with 0%Q.
    lra.
Qed.

Lemma zero_score_iff_no_facts_witness :
  Dict.wf registry_E ∧ ("E", model_empty) ∈ registry_E
  ∧ ∃ v, Dict.get (scores_of registry_E) "E" = Some v
      ∧ ((v == 0)%Q
         ↔ classes model_empty = ∅ ∧ relationships model_empty = ∅).
Proof.
  assert (Dict.wf registry_E) as Hwf by dict_wf.
  assert (("E", model_empty) ∈ registry_E) as Hin by left.
  split; [exact Hwf|]. split; [exact Hin|].
  exact (zero_score_iff_no_facts registry_E "E" model_empty Hwf Hin).
Defined.

(** X15. A registered model without relationships has relationship recall
    and precision 0, and scores at most 0.6. *)
Theorem score_without_relationships (models : registry) (name : string)
    (md : model_data) :
  Dict.wf models → (name, md) ∈ models → relationships md = ∅ →
  ∃ rec, Dict.get (metrics_dict_of models) name = Some rec
    ∧ (recall_relationships rec == 0)%Q
    ∧ (precision_relationships rec == 0)%Q
    ∧ (total_score rec <= 6 # 10)%Q.
Proof.
  intros Hwf Hin Hnr. exists (run_metrics models md).
  split; [by apply run_metrics_get|].
  pose proof (subseteq_size _ _ (classes_subseteq_all models name md Hin))
    as Hc.
  pose proof (size_corroborated_le (cmp_classes (comparison_of models))
                (classes md)) as Hcc.
  pose proof (size_corroborated_le (cmp_relationships (comparison_of models))
                (relationships md)) as Hcr.
  unfold run_metrics, metrics_of.
  cbn [recall_relationships precision_relationships total_score].
  rewrite Hnr in *. rewrite size_empty in *.
  assert (size (corroborated (cmp_relationships (comparison_of models)) ∅) = 0)
    as -> by lia.
  rewrite !Nat.add_0_r.
  pose proof (ratio_zero_num (size (all_relationships_of models))) as Z3.
  pose proof (ratio_le_1 _ _ Hc) as B1.
  pose proof (ratio_le_1 _ _ Hcc) as B2.
  split; [done|]. split; [apply Qeq_refl|].
  unfold weighted. change (ratio 0 0) with 0%Q. lra.
Qed.

Lemma score_without_relationships_witness :
  Dict.wf registry_AB ∧ ("A", model_A) ∈ registry_AB
  ∧ relationships model_A = ∅
  ∧ ∃ rec, Dict.get (metrics_dict_of registry_AB) "A" = Some rec
    ∧ (recall_relationships rec == 0)%Q
    ∧ (precision_relationships rec == 0)%Q
    ∧ (total_score rec <= 6 # 10)%Q.
Proof.
  assert (Dict.wf registry_AB) as Hwf by dict_wf.
  assert (("A", model_A) ∈ registry_AB) as Hin by left.
  assert (relationships model_A = ∅) as Hnr by reflexivity.
  split; [exact Hwf|]. split; [exact Hin|]. split; [exact Hnr|].
  exact (score_without_relationships registry_AB "A" model_A Hwf Hin Hnr).
Defined.

(** X16. A model registered under two names is fully corroborated: when it
    has classes its [precision_classes] is 1, when it has relationships its
    [precision_relationships] is 1, and when it has either its
    [overlap_score] is 1. *)
Theorem duplicate_model_corroborated (models : registry)
    (name name' : string) (md : model_data) :
  Dict.wf models → (name, md) ∈ models → (name', md) ∈ models →
  name ≠ name' →
  ∃ rec, Dict.get (metrics_dict_of models) name = Some rec
    ∧ (classes md ≠ ∅ → (precision_classes rec == 1)%Q)
    ∧ (relationships md ≠ ∅ → (precision_relationships rec == 1)%Q)
    ∧ (classes md ≠ ∅ ∨ relationships md ≠ ∅ → (overlap_score rec == 1)%Q).
Proof.
  intros Hwf Hin Hin' Hne. exists (run_metrics models md).
  split; [by apply run_metrics_get|].
  assert (corroborated (cmp_classes (comparison_of models)) (classes md)
          = classes md) as Ec.
  { apply set_eq. intros c. unfold corroborated.
    rewrite elem_of_filter, plen_classes. split; [by intros [_ ?]|].
    intros Hc. split; [|done].
    apply (holders_other classes c name md models Hwf Hin Hc).
    exists name', md. by repeat split. }
  assert (corroborated (cmp_relationships (comparison_of models))
            (relationships md) = relationships md) as Er.
  { apply set_eq. intros r. unfold corroborated.
    rewrite elem_of_filter, plen_relationships. split; [by intros [_ ?]|].
    intros Hr. split; [|done].
    apply (holders_other relationships r name md models Hwf Hin Hr).
    exists name', md. by repeat split. }
  unfold run_metrics, metrics_of.
  cbn [precision_classes precision_relationships overlap_score].
  rewrite Ec, Er. rewrite !ratio_eq_1, <- !size_zero_iff.
  split; [done|]. split; [done|]. intros ?. split; [done | lia].
Qed.

Lemma duplicate_model_corroborated_witness :
  Dict.wf registry_AA ∧ ("A", model_A) ∈ registry_AA
  ∧ ("A2", model_A) ∈ registry_AA ∧ "A" ≠ "A2"
  ∧ ∃ rec, Dict.get (metrics_dict_of registry_AA) "A" = Some rec
    ∧ (classes model_A ≠ ∅ → (precision_classes rec == 1)%Q)
    ∧ (relationships model_A ≠ ∅ → (precision_relationships rec == 1)%Q)
    ∧ (classes model_A ≠ ∅ ∨ relationships model_A ≠ ∅ →
       (overlap_score rec == 1)%Q).
Proof.
  assert (Dict.wf registry_AA) as Hwf by dict_wf.
  assert (("A", model_A) ∈ registry_AA) as Hin by left.
  assert (("A2", model_A) ∈ registry_AA) as Hin' by (right; left).
  assert ("A" ≠ "A2") as Hne by done.
  split; [exact Hwf|]. split; [exact Hin|]. split; [exact Hin'|].
  split; [exact Hne|].
  exact (duplicate_model_corroborated registry_AA "A" "A2" model_A
           Hwf Hin Hin' Hne).
Defined.

(** ** Adding a model, continued *)

Lemma all_classes_snoc models name' md' :
  all_classes_of models ⊆ all_classes_of (models ++ [(name', md')]).
Proof.
  intros c. rewrite !all_classes_of_eq, !(elem_of_all_facts classes).
  intros (e & ? & ?). exists e. split; [|done]. apply elem_of_app. by left.
Qed.

Lemma all_relationships_snoc models name' md' :
  all_relationships_of models
  ⊆ all_relationships_of (models ++ [(name', md')]).
Proof.
  intros r.
  rewrite !all_relationships_of_eq, !(elem_of_all_facts relationships).
  intros (e & ? & ?). exists e. split; [|done]. apply elem_of_app. by left.
Qed.

Lemma corroborated_relationships_snoc models name' md' md :
  corroborated (cmp_relationships (comparison_of models)) (relationships md)
  ⊆ corroborated
      (cmp_relationships (comparison_of (models ++ [(name', md')])))
      (relationships md).
Proof.
  intros r. unfold corroborated.
  rewrite !elem_of_filter, !plen_relationships.
  rewrite holders_app, length_app. intros [? ?]. split; [lia | done].
Qed.

(** X17. Registering one more model under a new name never raises the
    recall of a model already registered and never lowers its
    [precision_relationships] or its [overlap_score]. *)
Theorem adding_model_effect (models : registry) (name : string)
    (md : model_data) (name' : string) (md' : model_data) :
  Dict.wf models → (name, md) ∈ models → name' ∉ Dict.keys models →
  ∃ rec rec',
    Dict.get (metrics_dict_of models) name = Some rec
    ∧ Dict.get (metrics_dict_of (Dict.set models name' md')) name = Some rec'
    ∧ (recall_classes rec' <= recall_classes rec)%Q
    ∧ (recall_relationships rec' <= recall_relationships rec)%Q
    ∧ (precision_relationships rec <= precision_relationships rec')%Q
    ∧ (overlap_score rec <= overlap_score rec')%Q.
Proof.
  intros Hwf Hin Hnew. rewrite dict_set_notin by done.
  exists (run_metrics models md),
         (run_metrics (models ++ [(name', md')]) md).
  split; [by apply run_metrics_get|]. split.
  { apply run_metrics_get; [by apply dict_wf_snoc|].
    apply elem_of_app. by left. }
  pose proof (subseteq_size _ _ (classes_subseteq_all models name md Hin)).
  pose proof (subseteq_size _ _
                (relationships_subseteq_all models name md Hin)).
  pose proof (subseteq_size _ _ (all_classes_snoc models name' md')).
  pose proof (subseteq_size _ _ (all_relationships_snoc models name' md')).
  pose proof (subseteq_size _ _
                (corroborated_classes_snoc models name' md' md)).
  pose proof (subseteq_size _ _
                (corroborated_relationships_snoc models name' md' md)).
  unfold run_metrics, metrics_of.
  cbn [recall_classes recall_relationships precision_relationships
       overlap_score].
  split; [by apply ratio_antitone|]. split; [by apply ratio_antitone|].
  split; apply ratio_mono; lia.
Qed.

Lemma adding_model_effect_witness :
  Dict.wf registry_AB ∧ ("A", model_A) ∈ registry_AB
  ∧ ("C" ∉ Dict.keys registry_AB)
  ∧ ∃ rec rec',
      Dict.get (metrics_dict_of registry_AB) "A" = Some rec
      ∧ Dict.get (metrics_dict_of (Dict.set registry_AB "C" model_C)) "A"
        = Some rec'
      ∧ (recall_classes rec' <= recall_classes rec)%Q
      ∧ (recall_relationships rec' <= recall_relationships rec)%Q
      ∧ (precision_relationships rec <= precision_relationships rec')%Q
      ∧ (overlap_score rec <= overlap_score rec')%Q.
Proof.
  assert (Dict.wf registry_AB) as Hwf by dict_wf.
  assert (("A", model_A) ∈ registry_AB) as Hin by left.
  assert ("C" ∉ Dict.keys registry_AB) as Hnew
    by (apply (bool_decide_unpack _); by vm_compute).
  split; [exact Hwf|]. split; [exact Hin|]. split; [exact Hnew|].
  exact (adding_model_effect registry_AB "A" model_A "C" model_C
           Hwf Hin Hnew).
Defined.

(** ** The best model, continued *)

(** X18. The lookup of the best model raises only on an empty [scores],
    and then [ValueError]; on any other [scores] it returns one of its
    keys, and the values are never compared with [None]. *)
Theorem best_model_outcome (scores : list (string * Q)) :
  (∀ e, best_model scores = Err e → scores = [] ∧ e = ValueError)
  ∧ (scores ≠ [] →
     ∃ name, best_model scores = Ok name ∧ name ∈ Dict.keys scores).
Proof.
  split.
  - intros e He. destruct scores as [|entry scores].
    + split; [done|]. vm_compute in He. by injection He as <-.
    + destruct (best_model_spec (entry :: scores)) as (? & n & ? & E & _);
        [done|]. rewrite E in He. discriminate He.
  - intros Hne.
    destruct (best_model_spec scores Hne) as (pre & n & post & E & Hk & _).
    exists n. split; [done|]. rewrite Hk. apply elem_of_app. right. left.
Qed.

(** ** The CSV report *)

Section report_facts.
Variable fmt3 : Q → string.

Lemma length_class_rows (cp : gmap string (list string)) :
  length (class_rows cp) = size cp.
Proof.
  unfold class_rows. rewrite length_fmap. apply length_map_to_list.
Qed.

Lemma length_relationship_rows (rp : gmap rel (list string)) :
  length (relationship_rows rp) = size rp.
Proof.
  unfold relationship_rows. rewrite length_fmap. apply length_map_to_list.
Qed.

Lemma length_metric_rows (metrics : Dict.t string metrics_record) :
  length (metric_rows fmt3 metrics) = length metrics.
Proof. unfold metric_rows. apply length_fmap. Qed.

Lemma length_report_rows (cmp : comparison)
    (metrics : Dict.t string metrics_record) :
  length (report_rows fmt3 cmp metrics)
  = 9 + size (cmp_classes cmp) + size (cmp_relationships cmp)
    + length metrics.
Proof.
  unfold report_rows.
  rewrite !length_app, length_class_rows, length_relationship_rows,
    length_metric_rows.
  simpl. lia.
Qed.

Lemma save_results_to_csv_Ok cmp scores metrics best :
  best_model scores = Ok best →
  save_results_to_csv fmt3 cmp scores metrics
  = (report_rows fmt3 cmp metrics ++ [["Best Model"; best]], Ok ()).
Proof. intros E. unfold save_results_to_csv. by rewrite E. Qed.

(** X19. The report always has the three sections, of 9 fixed rows and one
    row per class, per relationship and per model. With an empty [scores]
    the writer raises [ValueError] after these rows, so the file has no
    best-model row; otherwise it ends with the row of the best model, a key
    of [scores]. *)
Theorem save_results_to_csv_outcome (cmp : comparison)
    (scores : Dict.t string Q) (metrics : Dict.t string metrics_record) :
  length (report_rows fmt3 cmp metrics)
  = 9 + size (cmp_classes cmp) + size (cmp_relationships cmp)
    + length metrics
  ∧ (scores = [] →
     save_results_to_csv fmt3 cmp scores metrics
     = (report_rows fmt3 cmp metrics, Err ValueError))
  ∧ (scores ≠ [] →
     ∃ best, best ∈ Dict.keys scores
       ∧ best_model scores = Ok best
       ∧ save_results_to_csv fmt3 cmp scores metrics
         = (report_rows fmt3 cmp metrics ++ [["Best Model"; best]], Ok ())).
Proof.
  split; [apply length_report_rows|]. split.
  - by intros ->.
  - intros Hne.
    destruct (best_model_spec scores Hne) as (pre & n & post & E & Hk & _).
    exists n. split; [rewrite Hk; apply elem_of_app; right; left|].
    split; [done|]. by apply save_results_to_csv_Ok.
Qed.
End report_facts.

Lemma dom_cmp_classes models :
  dom (cmp_classes (comparison_of models)) = all_classes_of models.
Proof.
  apply set_eq. intros c.
  rewrite elem_of_dom, cmp_classes_lookup, all_classes_of_eq.
  destruct (decide (holders classes c models ≠ [])) as [Hne|He].
  - split; [intros _ | by eauto].
    destruct (decide (c ∈ ⋃ (classes <$> models.*2))) as [|Hn]; [done|].
    by apply (holders_nil classes) in Hn.
  - apply dec_stable in He. split; [by intros [? ?]|].
    intros Hc. by apply (holders_nil classes) in He.
Qed.

Lemma dom_cmp_relationships models :
  dom (cmp_relationships (comparison_of models))
  = all_relationships_of models.
Proof.
  apply set_eq. intros r.
  rewrite elem_of_dom, cmp_relationships_lookup, all_relationships_of_eq.
  destruct (decide (holders relationships r models ≠ [])) as [Hne|He].
  - split; [intros _ | by eauto].
    destruct (decide (r ∈ ⋃ (relationships <$> models.*2))) as [|Hn];
      [done|].
    by apply (holders_nil relationships) in Hn.
  - apply dec_stable in He. split; [by intros [? ?]|].
    intros Hr. by apply (holders_nil relationships) in He.
Qed.

(** X20. The report of a run on a non-empty registry with unique names is
    written in full: 10 rows besides one per class of [all_classes], one
    per relationship of [all_relationships] and one per model, the last row
    naming the best model. *)
Theorem report_of_run (fmt3 : Q → string) (models : registry) :
  Dict.wf models → models ≠ [] →
  ∃ best rows,
    save_results_to_csv fmt3 (run models).2 (scores_of models)
      (metrics_dict_of models) = (rows, Ok ())
    ∧ best_model (scores_of models) = Ok best
    ∧ last rows = Some ["Best Model"; best]
    ∧ length rows
      = 10 + size (all_classes_of models)
        + size (all_relationships_of models) + length models.
Proof.
  intros Hwf Hne.
  destruct (run_spec models Hwf) as (Hs & Hm & Hc).
  assert (scores_of models ≠ []) as Hne'.
  { rewrite Hs. by destruct models. }
  destruct (best_model_spec (scores_of models) Hne')
    as (pre & best & post & E & _).
  exists best, (report_rows fmt3 (run models).2 (metrics_dict_of models)
                ++ [["Best Model"; best]]).
  split; [by apply save_results_to_csv_Ok|]. split; [done|].
  split; [apply last_snoc|].
  rewrite length_app, length_report_rows, Hc, Hm, length_fmap.
  rewrite <- dom_cmp_classes, <- dom_cmp_relationships, !size_dom.
  simpl. lia.
Qed.

Lemma report_of_run_witness :
  Dict.wf registry_AB ∧ registry_AB ≠ []
  ∧ ∃ best rows,
      save_results_to_csv (λ _, "") (run registry_AB).2
        (scores_of registry_AB) (metrics_dict_of registry_AB) = (rows, Ok ())
      ∧ best_model (scores_of registry_AB) = Ok best
      ∧ last rows = Some ["Best Model"; best]
      ∧ length rows
        = 10 + size (all_classes_of registry_AB)
          + size (all_relationships_of registry_AB) + length registry_AB.
Proof.
  assert (Dict.wf registry_AB) as Hwf by dict_wf.
  assert (registry_AB ≠ []) as Hne by done.
  split; [exact Hwf|]. split; [exact Hne|].
  exact (report_of_run (λ _, "") registry_AB Hwf Hne).
Defined.

(** X21. In the report of a run, the class rows are exactly one row per
    class of [all_classes], holding the class and the names of the models
    that contain it, joined by a comma and a space in registry order; the
    relationship rows likewise hold the three parts of the triple. *)
Theorem presence_rows_of_run (models : registry) :
  (∀ row, row ∈ class_rows (cmp_classes (comparison_of models))
          ↔ ∃ c, c ∈ all_classes_of models
                 ∧ row = [c; join ", " (holders classes c models)])
  ∧ (∀ row, row ∈ relationship_rows (cmp_relationships (comparison_of models))
            ↔ ∃ f t lb, (f, t, lb) ∈ all_relationships_of models
                ∧ row = [f; t; lb;
                         join ", " (holders relationships (f, t, lb) models)])
  ∧ length (class_rows (cmp_classes (comparison_of models)))
    = size (all_classes_of models)
  ∧ length (relationship_rows (cmp_relationships (comparison_of models)))
    = size (all_relationships_of models).
Proof.
  split; [|split; [|split]].
  - intros row. unfold class_rows. rewrite list_elem_of_fmap. split.
    + intros ([c l] & -> & Hin%elem_of_map_to_list). exists c. simpl.
      assert (c ∈ dom (cmp_classes (comparison_of models))) as Hd
        by (apply elem_of_dom; eauto).
      rewrite dom_cmp_classes in Hd. split; [done|].
      rewrite cmp_classes_lookup in Hin.
      destruct (decide (holders classes c models ≠ [])); [|done].
      by injection Hin as <-.
    + intros (c & Hc & ->). exists (c, holders classes c models).
      split; [done|]. apply elem_of_map_to_list.
      rewrite <- dom_cmp_classes in Hc. apply elem_of_dom in Hc as [l Hl].
      rewrite Hl. rewrite cmp_classes_lookup in Hl.
      destruct (decide (holders classes c models ≠ [])); [|done].
      by injection Hl as <-.
  - intros row. unfold relationship_rows. rewrite list_elem_of_fmap. split.
    + intros ([[[f t] lb] l] & -> & Hin%elem_of_map_to_list).
      exists f, t, lb. simpl.
      assert ((f, t, lb) ∈ dom (cmp_relationships (comparison_of models)))
        as Hd by (apply elem_of_dom; eauto).
      rewrite dom_cmp_relationships in Hd. split; [done|].
      rewrite cmp_relationships_lookup in Hin.
      destruct (decide (holders relationships (f, t, lb) models ≠ []));
        [|done].
      by injection Hin as <-.
    + intros (f & t & lb & Hr & ->).
      exists ((f, t, lb), holders relationships (f, t, lb) models).
      split; [done|]. apply elem_of_map_to_list.
      rewrite <- dom_cmp_relationships in Hr.
      apply elem_of_dom in Hr as [l Hl].
      rewrite Hl. rewrite cmp_relationships_lookup in Hl.
      destruct (decide (holders relationships (f, t, lb) models ≠ []));
        [|done].
      by injection Hl as <-.
  - unfold class_rows.
    by rewrite length_fmap, length_map_to_list, <- dom_cmp_classes, size_dom.
  - unfold relationship_rows.
    by rewrite length_fmap, length_map_to_list, <- dom_cmp_relationships,
      size_dom.
Qed.

(** ** The main program *)

Lemma dict_set_nonempty {V} (d : list (string * V)) (k : string) (v : V) :
  Dict.set d k v ≠ [].
Proof.
  destruct d as [|[k0 v0] d]; simpl; [done|]. by destruct (decide (k = k0)).
Qed.

Lemma dict_keys_set {V} (d : list (string * V)) (k : string) (v : V) :
  Dict.keys (Dict.set d k v)
  = if decide (k ∈ Dict.keys d) then Dict.keys d else Dict.keys d ++ [k].
Proof.
  unfold Dict.keys. induction d as [|[k0 v0] d IH]; simpl.
  - done.
  - destruct (decide (k = k0)) as [->|Hne]; simpl.
    + rewrite decide_True; [done | left].
    + change (list_fmap _ _ fst ?l) with (l.*1). rewrite IH.
      destruct (decide (k ∈ d.*1)).
      * rewrite decide_True; [done | by right].
      * rewrite decide_False; [done | by intros [?|?]%elem_of_cons].
Qed.

Lemma dict_wf_set {V} (d : list (string * V)) (k : string) (v : V) :
  Dict.wf d → Dict.wf (Dict.set d k v).
Proof.
  unfold Dict.wf. rewrite dict_keys_set. intros Hwf.
  destruct (decide (k ∈ Dict.keys d)); [done|].
  apply NoDup_app. split; [done|]. split; [|apply NoDup_singleton].
  intros x Hx ->%list_elem_of_singleton. done.
Qed.

Lemma load_all_Finished fs paths models0 models :
  load_all fs paths models0 = Finished models →
  Dict.wf models0 →
  Dict.wf models ∧ (paths ≠ [] ∨ models0 ≠ [] → models ≠ [])
  ∧ Forall (loads fs) paths.
Proof.
  revert models0. induction paths as [|[n p] paths IH]; intros models0; simpl.
  - intros [= <-] Hwf. split; [done|]. split; [by intros [?|?] | done].
  - destruct (fs !! p) as [data|] eqn:Ef; [|done].
    destruct (load_model_from_json data) as [md|e] eqn:El; [|done].
    intros Hall Hwf.
    destruct (IH _ Hall (dict_wf_set models0 n md Hwf)) as (H1 & H2 & H3).
    split; [done|]. split.
    + intros _. apply H2. right. apply dict_set_nonempty.
    + constructor; [|done]. by exists data, md.
Qed.

Lemma load_all_Exited fs paths models0 p :
  load_all fs paths models0 = Exited p
  ↔ ∃ pre name post, paths = pre ++ (name, p) :: post
      ∧ fs !! p = None ∧ Forall (loads fs) pre.
Proof.
  revert models0. induction paths as [|[n q] paths IH]; intros models0; simpl.
  - split; [done|]. intros (pre & ? & ? & E & _). by destruct pre.
  - destruct (fs !! q) as [data|] eqn:Ef.
    + destruct (load_model_from_json data) as [md|e] eqn:El.
      * rewrite IH. split.
        -- intros (pre & name & post & -> & Hp & Hpre).
           exists ((n, q) :: pre), name, post. split; [done|].
           split; [done|]. constructor; [by exists data, md | done].
        -- intros (pre & name & post & E & Hp & Hpre).
           destruct pre as [|e0 pre]; simpl in E; injection E as E1 E2.
           ++ subst q. congruence.
           ++ subst. exists pre, name, post. split; [done|].
              split; [done|]. by inversion Hpre.
      * split; [done|]. intros (pre & name & post & E & Hp & Hpre).
        destruct pre as [|e0 pre]; simpl in E; injection E as E1 E2.
        -- subst q. congruence.
        -- subst. inversion Hpre as [|? ? (d' & md' & Hd & Hl) ?]; subst.
           simpl in Hd. congruence.
    + split.
      * intros [= <-]. exists [], n, paths. by repeat split.
      * intros (pre & name & post & E & Hp & Hpre).
        destruct pre as [|e0 pre]; simpl in E; injection E as E1 E2.
        -- by subst.
        -- subst. inversion Hpre as [|? ? (d' & md' & Hd & Hl) ?]; subst.
           simpl in Hd. congruence.
Qed.

Section main_facts.
Variable fmt3 : Q → string.

Lemma main_after_load fs models :
  load_all fs file_paths [] = Finished models →
  main fmt3 fs
  = match best_model (scores_of models) with
    | Ok best =>
        match save_results_to_csv fmt3 (run models).2 (scores_of models)
                (metrics_dict_of models) with
        | (rows, Ok _) => Finished (best, rows)
        | (_, Err e) => Raised e
        end
    | Err e => Raised e
    end.
Proof.
  intros Hload. unfold main. rewrite Hload.
  unfold scores_of, metrics_dict_of, run.
  destruct (compare_models models) as [[cmp ac] ar].
  by destruct (evaluate_models models ac ar cmp) as [[scores metrics] cmp'].
Qed.

Lemma main_of_loaded fs models :
  load_all fs file_paths [] = Finished models →
  ∃ best,
    best_model (scores_of models) = Ok best
    ∧ best ∈ Dict.keys models
    ∧ main fmt3 fs
      = Finished (best,
                  report_rows fmt3 (run models).2 (metrics_dict_of models)
                  ++ [["Best Model"; best]]).
Proof.
  intros Hload. rewrite (main_after_load fs models Hload).
  destruct (load_all_Finished _ _ _ _ Hload) as (Hwf & Hne & _).
  { unfold Dict.wf. simpl. apply NoDup_nil_2. }
  assert (models ≠ []) as Hne' by (apply Hne; by left).
  destruct (run_spec models Hwf) as (Hs & _ & _).
  assert (Dict.keys (scores_of models) = Dict.keys models) as Hkeys.
  { rewrite Hs.
    apply (dict_keys_fmap (λ e, total_score (run_metrics models e.2))). }
  assert (scores_of models ≠ []) as Hsne.
  { rewrite Hs. by destruct models. }
  destruct (best_model_spec (scores_of models) Hsne)
    as (pre & best & post & E & Hk & _).
  exists best. split; [done|]. split.
  - rewrite <- Hkeys, Hk. apply elem_of_app. right. left.
  - rewrite E. by rewrite (save_results_to_csv_Ok fmt3 _ _ _ best E).
Qed.

(** X22. When the three files exist and load, the program finishes: the
    registry holds the three models under the names Claude, Gemini and
    Groq in this order, the best model is one of them, and the report ends
    with its row. *)
Theorem main_finishes (fs : gmap string (gmap string jval))
    (d1 d2 d3 : gmap string jval) (m1 m2 m3 : model_data) :
  fs !! "claude.json" = Some d1 → load_model_from_json d1 = Ok m1 →
  fs !! "gemini.json" = Some d2 → load_model_from_json d2 = Ok m2 →
  fs !! "groq.json" = Some d3 → load_model_from_json d3 = Ok m3 →
  ∃ best rows,
    main fmt3 fs = Finished (best, rows)
    ∧ best_model (scores_of [("Claude", m1); ("Gemini", m2); ("Groq", m3)])
      = Ok best
    ∧ best ∈ ["Claude"; "Gemini"; "Groq"]
    ∧ last rows = Some ["Best Model"; best].
Proof.
  intros F1 L1 F2 L2 F3 L3.
  assert (load_all fs file_paths []
          = Finished [("Claude", m1); ("Gemini", m2); ("Groq", m3)]) as Hload.
  { unfold file_paths. cbn [load_all]. by rewrite F1, L1, F2, L2, F3, L3. }
  destruct (main_of_loaded fs _ Hload) as (best & E & Hk & Hmain).
  exists best. eexists. split; [exact Hmain|]. split; [done|].
  split; [done | apply last_snoc].
Qed.

(** X23. The program exits on a missing file exactly when that file is the
    first of [file_paths] that does not exist and every file before it
    loads; nothing is compared or written then. *)
Theorem main_exits_on_first_missing (fs : gmap string (gmap string jval))
    (p : string) :
  main fmt3 fs = Exited p
  ↔ ∃ pre name post, file_paths = pre ++ (name, p) :: post
      ∧ fs !! p = None ∧ Forall (loads fs) pre.
Proof.
  rewrite <- (load_all_Exited fs file_paths [] p).
  destruct (load_all fs file_paths []) as [models|q|e] eqn:Hload.
  - destruct (main_of_loaded fs models Hload) as (best & _ & _ & ->).
    done.
  - unfold main. rewrite Hload. split; by intros [= ->].
  - unfold main. by rewrite Hload.
Qed.

(** X24. An exception of the program is raised in the loading loop: once
    the three models are loaded, the comparison, the scoring, the lookups
    of the best model and the rows of the report raise nothing, since the
    registry then holds three models. *)
Theorem main_raises_only_while_loading (fs : gmap string (gmap string jval))
    (e : exn) :
  main fmt3 fs = Raised e ↔ load_all fs file_paths [] = Raised e.
Proof.
  destruct (load_all fs file_paths []) as [models|q|e0] eqn:Hload.
  - destruct (main_of_loaded fs models Hload) as (best & _ & _ & ->). done.
  - unfold main. by rewrite Hload.
  - unfold main. rewrite Hload. split; by intros [= ->].
Qed.
End main_facts.

Lemma main_finishes_witness :
  ∃ m1 m2 m3,
    fs_three !! "claude.json" = Some doc_dup
    ∧ load_model_from_json doc_dup = Ok m1
    ∧ fs_three !! "gemini.json" = Some doc_once
    ∧ load_model_from_json doc_once = Ok m2
    ∧ fs_three !! "groq.json" = Some ∅
    ∧ load_model_from_json ∅ = Ok m3
    ∧ ∃ best rows,
        main (λ _, "") fs_three = Finished (best, rows)
        ∧ best_model (scores_of [("Claude", m1); ("Gemini", m2); ("Groq", m3)])
          = Ok best
        ∧ best ∈ ["Claude"; "Gemini"; "Groq"]
        ∧ last rows = Some ["Best Model"; best].
Proof.
  destruct (load_model_from_json doc_dup) as [m1|e] eqn:L1;
    [|vm_compute in L1; discriminate L1].
  destruct (load_model_from_json doc_once) as [m2|e] eqn:L2;
    [|vm_compute in L2; discriminate L2].
  destruct (load_model_from_json ∅) as [m3|e] eqn:L3;
    [|vm_compute in L3; discriminate L3].
  assert (fs_three !! "claude.json" = Some doc_dup) as F1 by reflexivity.
  assert (fs_three !! "gemini.json" = Some doc_once) as F2 by reflexivity.
  assert (fs_three !! "groq.json" = Some ∅) as F3 by reflexivity.
  exists m1, m2, m3.
  split; [exact F1|]. split; [reflexivity|]. split; [exact F2|].
  split; [reflexivity|]. split; [exact F3|]. split; [reflexivity|].
  exact (main_finishes (λ _, "") fs_three doc_dup doc_once ∅ m1 m2 m3
           F1 L1 F2 L2 F3 L3).
Defined.

(** A first file with an incomplete entry stops the program in the
    loader. *)
Example main_bad : main (λ _, "") fs_bad = Raised (KeyError "label").
Proof. by vm_compute. Qed.

(** Without ["gemini.json"] the program exits after loading the first
    file, whatever the third holds. *)
Example main_no_gemini : main (λ _, "") fs_no_gemini = Exited "gemini.json".
Proof. by vm_compute. Qed.

(** ** The best model of the binary64 scorer *)

Lemma evaluate_step_fl_shape rnd ac ar s m c name md :
  ∃ rec c',
    evaluate_step_fl rnd ac ar (s, m, c) (name, md)
    = (Dict.set s name (total_score rec), Dict.set m name rec, c').
Proof.
  unfold evaluate_step_fl.
  destruct (overlap_ones (classes md) (cmp_classes c)) as [ones_c cp].
  destruct (overlap_ones (relationships md) (cmp_relationships c))
    as [ones_r rp].
  eexists (Metrics _ _ _ _ _ _). eexists. reflexivity.
Qed.

(** The scorer at the identity is the scorer in exact rationals. *)
Lemma evaluate_models_fl_id models ac ar c :
  evaluate_models_fl (λ q, q) models ac ar c = evaluate_models models ac ar c.
Proof.
  unfold evaluate_models_fl, evaluate_models.
  generalize (@nil (string * Q), @nil (string * metrics_record), c).
  induction models as [|entry models IH]; intros st; cbn [foldl]; [done|].
  rewrite IH. destruct st as [[s m] c0], entry as [name md]. reflexivity.
Qed.

Lemma run_fl_id models : run_fl (λ q, q) models = run models.
Proof.
  unfold run_fl, run. destruct (compare_models models) as [[cmp ac] ar].
  apply evaluate_models_fl_id.
Qed.

Lemma keys_fill_wf (ks : list string) (models : registry) :
  NoDup (ks ++ Dict.keys models) → keys_fill ks models = ks ++ Dict.keys models.
Proof.
  unfold keys_fill, Dict.keys. revert ks.
  induction models as [|[n md] models IH]; intros ks Hnd; simpl.
  - by rewrite app_nil_r.
  - assert (n ∉ ks) as Hn.
    { apply NoDup_app in Hnd as (_ & Hdis & _). intros Hin.
      apply (Hdis n Hin). left. }
    rewrite decide_False by done. rewrite IH.
    + by rewrite <- app_assoc.
    + by rewrite <- app_assoc.
Qed.

Lemma evaluate_fl_fold rnd ac ar models (s : Dict.t string Q)
    (m : Dict.t string metrics_record) c :
  (∀ k, Dict.get s k = total_score <$> Dict.get m k) →
  Dict.keys s = Dict.keys m →
  (∀ k, Dict.get (foldl (evaluate_step_fl rnd ac ar) (s, m, c) models).1.1 k
        = total_score
          <$> Dict.get (foldl (evaluate_step_fl rnd ac ar) (s, m, c) models).1.2
                k)
  ∧ Dict.keys (foldl (evaluate_step_fl rnd ac ar) (s, m, c) models).1.1
    = keys_fill (Dict.keys m) models
  ∧ Dict.keys (foldl (evaluate_step_fl rnd ac ar) (s, m, c) models).1.2
    = keys_fill (Dict.keys m) models.
Proof.
  revert s m c. induction models as [|[name md] models IH];
    intros s m c Hget Hkeys; cbn [foldl].
  - done.
  - destruct (evaluate_step_fl_shape rnd ac ar s m c name md)
      as (rec & c' & ->).
    destruct (IH (Dict.set s name (total_score rec)) (Dict.set m name rec) c')
      as (I1 & I2 & I3).
    + intros k. destruct (decide (name = k)) as [->|Hne].
      * by rewrite !dict_get_set_eq.
      * by rewrite !dict_get_set_ne.
    + by rewrite !dict_keys_set, Hkeys.
    + split; [done|]. unfold keys_fill in *. cbn [foldl]. simpl.
      rewrite dict_keys_set in I2, I3. done.
Qed.

(** C4. For a non-empty registry, the best model is a model whose
    [total_score], as the scorer computed it under whatever rounding, is
    greatest, and it is the first such model in registry order: the models
    before it score strictly less, those after it score at most as
    much. *)
Theorem best_model_first_max (rnd : Q → Q) (models : registry) :
  Dict.wf models → models ≠ [] →
  ∃ pre name post rec,
    best_model (scores_fl_of rnd models) = Ok name
    ∧ Dict.keys models = pre ++ name :: post
    ∧ Dict.get (metrics_fl_of rnd models) name = Some rec
    ∧ Dict.get (scores_fl_of rnd models) name = Some (total_score rec)
    ∧ (∀ n, n ∈ pre →
         ∃ rec', Dict.get (metrics_fl_of rnd models) n = Some rec'
                 ∧ (total_score rec' < total_score rec)%Q)
    ∧ (∀ n, n ∈ post →
         ∃ rec', Dict.get (metrics_fl_of rnd models) n = Some rec'
                 ∧ (total_score rec' <= total_score rec)%Q).
Proof.
  intros Hwf Hne. unfold scores_fl_of, metrics_fl_of, run_fl.
  destruct (compare_models models) as [[cmp ac] ar].
  unfold evaluate_models_fl.
  destruct (evaluate_fl_fold rnd ac ar models [] [] cmp) as (Hget & Hks & Hkm);
    [done | done |].
  rewrite keys_fill_wf in Hks, Hkm by done.
  set (r := foldl (evaluate_step_fl rnd ac ar) ([], [], cmp) models).
  change (∀ k, Dict.get r.1.1 k = total_score <$> Dict.get r.1.2 k) in Hget.
  change (Dict.keys r.1.1 = Dict.keys models) in Hks.
  change (Dict.keys r.1.2 = Dict.keys models) in Hkm.
  assert (r.1.1 ≠ []) as Hne'.
  { intros E. rewrite E in Hks. destruct models; [done | discriminate Hks]. }
  destruct (best_model_spec r.1.1 Hne')
    as (pre & name & post & Hbest & Hsplit & Hpre & Hpost).
  rewrite Hks in Hsplit.
  assert (∀ n, n ∈ Dict.keys models →
            ∃ rec', Dict.get r.1.2 n = Some rec'
                    ∧ Dict.get r.1.1 n = Some (total_score rec')) as Hboth.
  { intros n Hn. rewrite <- Hkm in Hn.
    apply dict_get_is_Some in Hn as [rec' Hrec'].
    exists rec'. split; [done|]. by rewrite Hget, Hrec'. }
  destruct (Hboth name) as (rec & Hm & Hs).
  { rewrite Hsplit. apply elem_of_app. right. left. }
  exists pre, name, post, rec.
  split; [done|]. split; [done|]. split; [done|]. split; [done|]. split.
  - intros n Hn. destruct (Hboth n) as (rec' & Hm' & Hs').
    { rewrite Hsplit. apply elem_of_app. by left. }
    exists rec'. split; [done|].
    specialize (Hpre n Hn). rewrite Hs, Hs' in Hpre. exact Hpre.
  - intros n Hn. destruct (Hboth n) as (rec' & Hm' & Hs').
    { rewrite Hsplit. apply elem_of_app. right. by right. }
    exists rec'. split; [done|].
    specialize (Hpost n Hn). rewrite Hs, Hs' in Hpost. exact Hpost.
Qed.

Lemma best_model_first_max_witness :
  Dict.wf registry_BS ∧ registry_BS ≠ []
  ∧ ∃ pre name post rec,
      best_model (scores_fl_of b64 registry_BS) = Ok name
      ∧ Dict.keys registry_BS = pre ++ name :: post
      ∧ Dict.get (metrics_fl_of b64 registry_BS) name = Some rec
      ∧ Dict.get (scores_fl_of b64 registry_BS) name = Some (total_score rec)
      ∧ (∀ n, n ∈ pre →
           ∃ rec', Dict.get (metrics_fl_of b64 registry_BS) n = Some rec'
                   ∧ (total_score rec' < total_score rec)%Q)
      ∧ (∀ n, n ∈ post →
           ∃ rec', Dict.get (metrics_fl_of b64 registry_BS) n = Some rec'
                   ∧ (total_score rec' <= total_score rec)%Q).
Proof.
  assert (Dict.wf registry_BS) as Hwf by dict_wf.
  assert (registry_BS ≠ []) as Hne by done.
  split; [exact Hwf|]. split; [exact Hne|].
  exact (best_model_first_max b64 registry_BS Hwf Hne).
Defined.

(** In exact arithmetic the two models of [registry_BS] tie at 1/3 and the
    first is the best; in binary64 the second scores strictly more
    (0.33333333333333337 against 0.33333333333333331) and is the best. *)
Example scores_BS_exact :
  scores_of registry_BS
  = [("Big", 90000000000 # 270000000000);
     ("Small", 10000000000 # 30000000000)].
Proof. by vm_compute. Qed.

Example scores_BS_b64 :
  scores_fl_of b64 registry_BS
  = [("Big", 6004799503160661 # 18014398509481984);
     ("Small", 3002399751580331 # 9007199254740992)].
Proof. by vm_compute. Qed.

Example best_model_BS_b64 :
  best_model (scores_fl_of b64 registry_BS) = Ok "Small".
Proof. by vm_compute. Qed.
